(** * secureChat: the session / message / notification store of [src/index.ts]

    The canister keeps three stable maps and exposes update and query
    methods over them.  Each method is embedded as a function from the
    store (and the call's environment: the caller, the clock, the values
    drawn from [Math.random]) to a result and the store after the call. *)

From Stdlib Require Import ZArith QArith.QArith_base QArith.Qround.
From stdpp Require Import gmap strings list fin_maps pretty.

Local Open Scope Z_scope.

(** ** Constants *)

(** Maxiumum Default Number for an Integer *)
Definition INTEGER_LIMIT : Z := 2 ^ 53 - 1.
Definition INTEGER_LIMIT_pos : positive := Z.to_pos INTEGER_LIMIT.
(** Maximum Sessions Allowed for Each User *)
Definition MAXIMUM_SESSIONS : nat := 20.
(** Maximum Messages Allowed for Each Session *)
Definition MAX_MSG_PER_SESSION : nat := 200.

(** ** Records *)

(** A [Principal] is compared through [toString()] everywhere in the
    source; it is represented by that text. *)
Abbreviation Principal := string (only parsing).

Module Message.
Record t : Type := mk
  { sender : Principal;
    receiver : Principal;
    messageText : string;
    messageTime : Z }.
End Message.

Module Session.
Record t : Type := mk
  { id : Z;
    user : Principal }.
End Session.

Module MessageNotification.
Record t : Type := mk
  { sender : Principal;
    id : Z;
    messageTime : Z }.
End MessageNotification.

Inductive Error : Type :=
| NoManager (detail : string)
| NoSession (detail : string)
| NotFound (detail : string)
| DuplicateAttempt (detail : string)
| MaxSessionsReached (detail : string)
| MaxMessageReached (detail : string).

Inductive Result (A E : Type) : Type :=
| Ok (value : A)
| Err (error : E).
Arguments Ok {A E} value.
Arguments Err {A E} error.

(** The texts carried by the errors. *)
Definition no_session_text : string := "You Have No Session Yet.".
Definition not_found_text : string := "Session ID is not found.".
Definition not_found_query_text : string := "Session ID is not found".
Definition not_detected_text : string :=
  "Session ID Not Detected. Please Create A Session With The Receiver First.".
Definition duplicate_text : string :=
  "Session with the Target Principal Has Existed".
Definition max_sessions_text : string :=
  "Your existing sessions have exceeded the maximum capacity of "
  +:+ pretty MAXIMUM_SESSIONS +:+ " sessions.
                    Please delete some of it to create new session.".
Definition max_message_text : string :=
  "Your session have exceeded the maximum capacity of "
  +:+ pretty MAX_MSG_PER_SESSION +:+ " messages.
                    Please delete this session and create a new one.".

(** ** The three stable maps *)

Record Store : Type := mkStore
  { (** Store The List of Chat Sessions Each User Has *)
    userChatIDs : gmap string (list Session.t);
    (** Store The Messages Data of Each Chat Session *)
    chatData : gmap Z (list Message.t);
    (** Store The Notifications of Unread Messages of Each User *)
    unreadMessages : gmap string (list MessageNotification.t) }.

Definition emptyStore : Store := mkStore ∅ ∅ ∅.

(** ** Objects and identity

    [Array.prototype.includes] compares with SameValueZero, which on
    objects is identity.  An object is therefore a value together with
    the address it was allocated at.  Reading a vector out of a stable
    map decodes it into objects at consecutive fresh addresses starting
    at the allocation pointer; an object literal takes the next one. *)

Record Ref (A : Type) : Type := mkRef { addr : nat; deref : A }.
Arguments mkRef {A} addr deref.
Arguments addr {A} r.
Arguments deref {A} r.

Fixpoint decodeVec {A : Type} (next : nat) (stored : list A) : list (Ref A) :=
  match stored with
  | [] => []
  | x :: rest => mkRef next x :: decodeVec (S next) rest
  end.

Definition includes {A : Type} (arr : list (Ref A)) (x : Ref A) : bool :=
  existsb (λ o, Nat.eqb (addr o) (addr x)) arr.

(** ** Session id generation *)

(** [generateRandomID], given the value [r] returned by [Math.random()]
    (a number with [0 <= r < 1]); the product is taken exactly. *)
Definition generateRandomID (r : Q) : Z :=
  Qfloor (Qmult r (inject_Z INTEGER_LIMIT)).

(** The generate-and-check loop at the head of [createSession]: [draws]
    are the successive values of [Math.random()].  The loop stops at the
    first id that is not a key of [chatData]; [None] means every draw
    supplied collided. *)
Fixpoint generateNewID (cd : gmap Z (list Message.t)) (draws : list Q) : option Z :=
  match draws with
  | [] => None
  | r :: rest =>
      let newID := generateRandomID r in
      if decide (is_Some (cd !! newID)) then generateNewID cd rest else Some newID
  end.

(** ** Scans of a session list *)

(** The callback of the [forEach] in [sendMessage], [viewMessages] and
    [getTotalSessionMessages]: it overwrites [ID] on a match. *)
Definition scanStep (target : Principal) (ID : Z) (session : Session.t) : Z :=
  if decide (Session.user session = target) then Session.id session else ID.

(** The [forEach] itself, from [let ID = BigInt(0)]: the last match wins
    and the initial [0] survives when nothing matches. *)
Definition scanSessionID (sessions : list Session.t) (target : Principal) : Z :=
  fold_left (scanStep target) sessions 0.

(** [for ... of] with a [return] in the body: the first match wins. *)
Fixpoint firstSessionID (sessions : list Session.t) (target : Principal) : option Z :=
  match sessions with
  | [] => None
  | session :: rest =>
      if decide (Session.user session = target) then Some (Session.id session)
      else firstSessionID rest target
  end.

(** The [filter] callback of [removeSession]: drops every session with
    [friendPrincipal] and records the id of the last one dropped. *)
Fixpoint filterSessions (friendPrincipal : Principal) (sessions : list Session.t)
    (removedID : Z) : Z * list Session.t :=
  match sessions with
  | [] => (removedID, [])
  | session :: rest =>
      if decide (Session.user session = friendPrincipal)
      then filterSessions friendPrincipal rest (Session.id session)
      else
        let '(removedID', kept) := filterSessions friendPrincipal rest removedID in
        (removedID', session :: kept)
  end.

(** Remove the notifications of session [sid] from the queue of [who],
    when [who] has a queue. *)
Definition purgeNotifications (who : Principal) (sid : Z)
    (um : gmap string (list MessageNotification.t)) : gmap string (list MessageNotification.t) :=
  match um !! who with
  | None => um
  | Some notifications =>
      <[who := filter (λ notification, MessageNotification.id notification ≠ sid) notifications]> um
  end.

(** ** Update methods *)

Definition createSession (st : Store) (caller friendPrincipal : Principal)
    (draws : list Q) : option (Result bool Error * Store) :=
  match generateNewID (chatData st) draws with
  | None => None
  | Some newID =>
      let newSession := Session.mk newID friendPrincipal in
      match userChatIDs st !! caller with
      | None =>
          Some (Ok true,
                mkStore (<[caller := [newSession]]> (userChatIDs st))
                        (<[newID := []]> (chatData st))
                        (unreadMessages st))
      | Some userSessions =>
          if (MAXIMUM_SESSIONS <? length userSessions)%nat
          then Some (Err (MaxSessionsReached max_sessions_text), st)
          else if decide (Exists (λ session, Session.user session = friendPrincipal) userSessions)
          then Some (Err (DuplicateAttempt duplicate_text), st)
          else
            Some (Ok true,
                  mkStore (<[caller := userSessions ++ [newSession]]> (userChatIDs st))
                          (<[newID := []]> (chatData st))
                          (unreadMessages st))
      end
  end.

(** The part of [removeSession] and of the loop body of
    [removeAllSessions] that follows the comment "Remove Session Data if
    Session Has Been Deleted By Both Users": [uc] is the directory as
    the code reads it at that point, [next] the allocation pointer. *)
Definition cascade (uc : gmap string (list Session.t)) (caller friendPrincipal : Principal)
    (removedID : Z) (next : nat)
    (cd : gmap Z (list Message.t)) (um : gmap string (list MessageNotification.t))
  : nat * gmap Z (list Message.t) * gmap string (list MessageNotification.t) :=
  match uc !! friendPrincipal with
  | None => (next, delete removedID cd, um)
  | Some stored =>
      let friendSession := decodeVec next stored in
      let removedSession := mkRef (next + length stored)%nat (Session.mk removedID caller) in
      let next' := S (next + length stored) in
      if negb (includes friendSession removedSession)
      then (next', delete removedID cd,
            purgeNotifications caller removedID
              (purgeNotifications friendPrincipal removedID um))
      else (next', cd, um)
  end.

Definition removeSession (st : Store) (caller friendPrincipal : Principal)
  : Result bool Error * Store :=
  match userChatIDs st !! caller with
  | None => (Err (NoSession no_session_text), st)
  | Some userSessions =>
      let '(removedID, newSession) := filterSessions friendPrincipal userSessions 0 in
      if decide (length newSession = length userSessions)
      then (Err (NotFound not_found_text), st)
      else
        let uc := <[caller := newSession]> (userChatIDs st) in
        let '(_, cd, um) :=
          cascade uc caller friendPrincipal removedID 0 (chatData st) (unreadMessages st) in
        (Ok true, mkStore uc cd um)
  end.

Definition removeAllSessions (st : Store) (caller : Principal)
  : Result bool Error * Store :=
  match userChatIDs st !! caller with
  | None => (Err (NoSession no_session_text), st)
  | Some userSessions =>
      let '(_, cd, um) :=
        fold_left
          (λ '(next, cd, um) session,
             cascade (userChatIDs st) caller (Session.user session) (Session.id session)
                     next cd um)
          userSessions (0%nat, chatData st, unreadMessages st) in
      (Ok true, mkStore (<[caller := []]> (userChatIDs st)) cd um)
  end.

(** [now] is the value of [ic.time()], which is the same at both places
    the call reads it. *)
Definition sendMessage (st : Store) (caller receiver : Principal) (message : string)
    (now : Z) : Result bool Error * Store :=
  match userChatIDs st !! caller with
  | None => (Err (NoSession no_session_text), st)
  | Some userSessions =>
      let ID := scanSessionID userSessions receiver in
      if decide (ID = 0) then (Err (NotFound not_detected_text), st)
      else
        let newMessage := Message.mk caller receiver message now in
        let newNotification := MessageNotification.mk caller ID now in
        let enqueue (cd : gmap Z (list Message.t)) :=
          let um :=
            match unreadMessages st !! receiver with
            | None => <[receiver := [newNotification]]> (unreadMessages st)
            | Some currentNotification =>
                <[receiver := currentNotification ++ [newNotification]]> (unreadMessages st)
            end in
          (Ok true, mkStore (userChatIDs st) cd um) in
        match chatData st !! ID with
        | None => enqueue (<[ID := [newMessage]]> (chatData st))
        | Some currentMessages =>
            if (MAX_MSG_PER_SESSION <? length currentMessages)%nat
            then (Err (MaxMessageReached max_message_text), st)
            else enqueue (<[ID := currentMessages ++ [newMessage]]> (chatData st))
        end
  end.

Definition viewNotifications (st : Store) (caller : Principal)
  : list MessageNotification.t :=
  match unreadMessages st !! caller with
  | None => []
  | Some currentNotifications => currentNotifications
  end.

Definition viewMessages (st : Store) (caller friendPrincipal : Principal)
  : Result (list Message.t) Error * Store :=
  match userChatIDs st !! caller with
  | None => (Err (NoSession no_session_text), st)
  | Some userSessions =>
      let ID := scanSessionID userSessions friendPrincipal in
      if decide (ID = 0) then (Err (NotFound not_found_text), st)
      else
        match chatData st !! ID with
        | None => (Err (NotFound not_found_text), st)
        | Some currentMessages =>
            (Ok currentMessages,
             mkStore (userChatIDs st) (chatData st)
                     (purgeNotifications caller ID (unreadMessages st)))
        end
  end.

(** ** Query methods *)

Definition getSessionID (st : Store) (caller friendPrincipal : Principal)
  : Result Z Error :=
  match userChatIDs st !! caller with
  | None => Err (NoSession no_session_text)
  | Some userSessions =>
      match firstSessionID userSessions friendPrincipal with
      | Some sid => Ok sid
      | None => Err (NotFound not_found_query_text)
      end
  end.

Definition getAllSessions (st : Store) (caller : Principal)
  : Result (list Session.t) Error :=
  match userChatIDs st !! caller with
  | None => Err (NoSession no_session_text)
  | Some userSessions => Ok userSessions
  end.

Definition getTotalSessions (st : Store) (caller : Principal) : Z :=
  match userChatIDs st !! caller with
  | None => 0
  | Some userSessions => Z.of_nat (length userSessions)
  end.

Definition getTotalSessionMessages (st : Store) (caller friendPrincipal : Principal)
  : Result Z Error :=
  match userChatIDs st !! caller with
  | None => Err (NoSession no_session_text)
  | Some userSessions =>
      let ID := scanSessionID userSessions friendPrincipal in
      if decide (ID = 0) then Err (NotFound not_detected_text)
      else
        match chatData st !! ID with
        | None => Err (NotFound not_found_text)
        | Some currentMessages => Ok (Z.of_nat (length currentMessages))
        end
  end.

Definition getMaximumSessions : Z := Z.of_nat MAXIMUM_SESSIONS.
Definition getMaximumMessages : Z := Z.of_nat MAX_MSG_PER_SESSION.

(** * Vocabulary of the properties *)

(** Within each caller's list the counterparties are pairwise distinct. *)
Definition uniqueCounterparties (st : Store) : Prop :=
  ∀ caller userSessions,
    userChatIDs st !! caller = Some userSessions →
    NoDup (Session.user <$> userSessions).

(** A call of the session manager, with the caller and what the call
    reads from its environment. *)
Inductive SessionCall : Type :=
| CallCreateSession (caller friendPrincipal : string) (draws : list Q)
| CallRemoveSession (caller friendPrincipal : string)
| CallRemoveAllSessions (caller : string).

Definition runCall (st : Store) (call : SessionCall) : option Store :=
  match call with
  | CallCreateSession caller friendPrincipal draws =>
      snd <$> createSession st caller friendPrincipal draws
  | CallRemoveSession caller friendPrincipal =>
      Some (removeSession st caller friendPrincipal).2
  | CallRemoveAllSessions caller =>
      Some (removeAllSessions st caller).2
  end.

Fixpoint runCalls (st : Store) (calls : list SessionCall) : option Store :=
  match calls with
  | [] => Some st
  | call :: rest =>
      match runCall st call with
      | None => None
      | Some st' => runCalls st' rest
      end
  end.

(** The caller lists a session with [counterparty], and [sid] is the id
    of every session the caller lists with that counterparty (there is
    one such session when counterparties are unique, see C5). *)
Definition holdsSession (st : Store) (caller counterparty : string) (sid : Z) : Prop :=
  ∃ userSessions,
    userChatIDs st !! caller = Some userSessions ∧
    Session.mk sid counterparty ∈ userSessions ∧
    ∀ session, session ∈ userSessions →
               Session.user session = counterparty → Session.id session = sid.

(** The notification queues after one more notification for [receiver]
    (the queue is created when absent). *)
Definition enqueued (receiver : string) (notification : MessageNotification.t)
    (um : gmap string (list MessageNotification.t)) : gmap string (list MessageNotification.t) :=
  <[receiver := default [] (um !! receiver) ++ [notification]]> um.

(** Successive sends of one caller to one receiver; each element of
    [batch] is the text and the clock value of one call. *)
Fixpoint sendMessages (st : Store) (caller receiver : string)
    (batch : list (string * Z)) : list (Result bool Error) * Store :=
  match batch with
  | [] => ([], st)
  | (message, now) :: rest =>
      let '(r, st1) := sendMessage st caller receiver message now in
      let '(rs, st2) := sendMessages st1 caller receiver rest in
      (r :: rs, st2)
  end.

(** A store with a session whose id is the sentinel: it is the store
    [createSession] leaves when [Math.random()] returns [0]. *)
Definition zeroIdStore : Store :=
  mkStore {[ "alice"%string := [Session.mk 0 "bob"] ]} {[ 0 := [] ]} ∅.

(** A store in which alice and bob list each other under session 5,
    with one message in the log and one unread notification each. *)
Definition reciprocalStore : Store :=
  mkStore {[ "alice"%string := [Session.mk 5 "bob"];
             "bob"%string := [Session.mk 5 "alice"] ]}
          {[ 5 := [Message.mk "alice" "bob" "hi" 1; Message.mk "bob" "alice" "yo" 2] ]}
          {[ "alice"%string := [MessageNotification.mk "bob" 5 2];
             "bob"%string := [MessageNotification.mk "alice" 5 1] ]}.

(** A store in which alice holds exactly [MAXIMUM_SESSIONS] sessions. *)
Definition fullSessions : list Session.t :=
  (λ n, Session.mk (Z.of_nat n) ("user" +:+ pretty n)) <$> seq 1 MAXIMUM_SESSIONS.

Definition fullStore : Store :=
  mkStore {[ "alice"%string := fullSessions ]}
          (list_to_map ((λ session, (Session.id session, [])) <$> fullSessions))
          ∅.

(** The calls that build [fullStore] from the empty store: alice creates
    a session with each of [MAXIMUM_SESSIONS] users, the [n]-th time
    with [Math.random()] returning [n / INTEGER_LIMIT]. *)
Definition fullCalls : list SessionCall :=
  (λ n, CallCreateSession "alice" ("user" +:+ pretty n)
          [Qmake (Z.of_nat n) INTEGER_LIMIT_pos]) <$> seq 1 MAXIMUM_SESSIONS.

(** Every listed session has its message log entry, and a session id
    occurs in one directory record only. *)
Definition idsOwned (st : Store) : Prop :=
  (∀ caller l s,
      userChatIDs st !! caller = Some l → s ∈ l →
      is_Some (chatData st !! Session.id s))
  ∧ (∀ c1 c2 l1 l2 s1 s2,
        userChatIDs st !! c1 = Some l1 → userChatIDs st !! c2 = Some l2 →
        s1 ∈ l1 → s2 ∈ l2 → Session.id s1 = Session.id s2 →
        c1 = c2 ∧ s1 = s2).

(** A call of any of the methods that write to the store. *)
Inductive UpdateCall : Type :=
| CallSessionManager (call : SessionCall)
| CallSendMessage (caller receiver message : string) (now : Z)
| CallViewMessages (caller friendPrincipal : string).

Definition runUpdate (st : Store) (call : UpdateCall) : option Store :=
  match call with
  | CallSessionManager call => runCall st call
  | CallSendMessage caller receiver message now =>
      Some (sendMessage st caller receiver message now).2
  | CallViewMessages caller friendPrincipal =>
      Some (viewMessages st caller friendPrincipal).2
  end.

Fixpoint runUpdates (st : Store) (calls : list UpdateCall) : option Store :=
  match calls with
  | [] => Some st
  | call :: rest =>
      match runUpdate st call with
      | None => None
      | Some st' => runUpdates st' rest
      end
  end.

(** Each draw of [skipped] yields an id that is already a key of [cd]. *)
Definition allCollide (cd : gmap Z (list Message.t)) (skipped : list Q) : Prop :=
  Forall (λ r, is_Some (cd !! generateRandomID r)) skipped.

(** No session list is longer than [MAXIMUM_SESSIONS + 1]. *)
Definition sessionsBounded (st : Store) : Prop :=
  ∀ caller userSessions,
    userChatIDs st !! caller = Some userSessions →
    (length userSessions ≤ S MAXIMUM_SESSIONS)%nat.

(** No message log is longer than [MAX_MSG_PER_SESSION + 1]. *)
Definition logsBounded (st : Store) : Prop :=
  ∀ k msgs, chatData st !! k = Some msgs → (length msgs ≤ S MAX_MSG_PER_SESSION)%nat.

(** The log of a listed session holds only messages from the session's
    owner to the session's counterparty. *)
Definition ownLogs (st : Store) : Prop :=
  ∀ caller userSessions session msgs,
    userChatIDs st !! caller = Some userSessions → session ∈ userSessions →
    chatData st !! Session.id session = Some msgs →
    Forall (λ m, Message.sender m = caller ∧ Message.receiver m = Session.user session) msgs.

(** Alice opens a session with bob and writes to him; bob opens his own
    session with alice and looks at it. *)
Definition demoCalls : list UpdateCall :=
  [ CallSessionManager (CallCreateSession "alice" "bob" [Qmake 1 2]);
    CallSendMessage "alice" "bob" "hi" 1;
    CallSessionManager (CallCreateSession "bob" "alice" [Qmake 1 2; Qmake 1 4]);
    CallViewMessages "bob" "alice" ].

Definition demoStore : Store :=
  mkStore {[ "alice"%string := [Session.mk 4503599627370495 "bob"];
             "bob"%string := [Session.mk 2251799813685247 "alice"] ]}
          {[ 4503599627370495 := [Message.mk "alice" "bob" "hi" 1];
             2251799813685247 := [] ]}
          {[ "bob"%string := [MessageNotification.mk "alice" 4503599627370495 1] ]}.





(** * Properties *)

(** ** Object identity *)

Lemma includes_decodeVec_above {A : Type} (stored : list A) (next k : nat) (x : A) :
  (next + length stored ≤ k)%nat →
  includes (decodeVec next stored) (mkRef k x) = false.
Proof.
  revert next. induction stored as [|y rest IH]; intros next Hk; [done|].
  cbn [decodeVec includes existsb addr] in *.
  rewrite orb_false_iff. split.
  - apply Nat.eqb_neq. cbn [length] in Hk. lia.
  - apply IH. cbn [length] in Hk. lia.
Qed.

(** The object literal built for the [includes] test is never an element
    of the freshly decoded list, so the test always fails and the
    cascade always runs. *)
Lemma cascade_always (uc : gmap string (list Session.t)) (caller friendPrincipal : string)
    (removedID : Z) (next : nat) (cd : gmap Z (list Message.t))
    (um : gmap string (list MessageNotification.t)) :
  ∃ next',
    cascade uc caller friendPrincipal removedID next cd um =
    (next', delete removedID cd,
     match uc !! friendPrincipal with
     | None => um
     | Some _ =>
         purgeNotifications caller removedID
           (purgeNotifications friendPrincipal removedID um)
     end).
Proof.
  unfold cascade. destruct (uc !! friendPrincipal) as [stored|]; [|by eexists].
  rewrite includes_decodeVec_above by lia. by eexists.
Qed.

(** ** Scanning a session list *)

Lemma scanSessionID_fold (sessions : list Session.t) (target : string) :
  scanSessionID sessions target = fold_left (scanStep target) sessions 0.
Proof. reflexivity. Qed.

Lemma firstSessionID_app_fresh (sessions : list Session.t) (target : string) (sid : Z) :
  ¬ Exists (λ session, Session.user session = target) sessions →
  firstSessionID (sessions ++ [Session.mk sid target]) target = Some sid.
Proof.
  induction sessions as [|s rest IH]; intros Hno; cbn.
  - by rewrite decide_True.
  - rewrite decide_False.
    + apply IH. intros Hex. apply Hno. by apply Exists_cons_tl.
    + intros Heq. apply Hno. by apply Exists_cons_hd.
Qed.

(** ** The filter of [removeSession] *)

Lemma filterSessions_kept (friendPrincipal : string) (sessions : list Session.t) (r : Z) :
  (filterSessions friendPrincipal sessions r).2 =
  filter (λ session, Session.user session ≠ friendPrincipal) sessions.
Proof.
  revert r. induction sessions as [|s rest IH]; intros r; [done|].
  cbn [filterSessions]. destruct (decide (Session.user s = friendPrincipal)) as [Heq|Hne].
  - rewrite IH. rewrite filter_cons_False; [done|]. by intros H.
  - specialize (IH r). destruct (filterSessions friendPrincipal rest r) as [r' kept].
    cbn [fst snd] in *. rewrite filter_cons_True by done. by rewrite IH.
Qed.

Lemma filterSessions_removedID (friendPrincipal : string) (sessions : list Session.t) (r : Z) :
  (filterSessions friendPrincipal sessions r).1 =
  fold_left (scanStep friendPrincipal) sessions r.
Proof.
  revert r. induction sessions as [|s rest IH]; intros r; [done|].
  cbn [filterSessions fold_left]. unfold scanStep at 2.
  destruct (decide (Session.user s = friendPrincipal)) as [Heq|Hne].
  - apply IH.
  - specialize (IH r). destruct (filterSessions friendPrincipal rest r) as [r' kept].
    by cbn [fst snd] in *.
Qed.

Lemma filter_length_eq {A : Type} (P : A → Prop) `{!∀ x, Decision (P x)} (l : list A) :
  length (filter P l) = length l ↔ Forall P l.
Proof.
  induction l as [|x l IH].
  - split; [by constructor|done].
  - destruct (decide (P x)) as [HP|HP].
    + rewrite filter_cons_True by done. cbn [length]. rewrite Forall_cons.
      split.
      * intros Hlen. split; [done|]. apply IH. lia.
      * intros [_ Hall]. f_equal. by apply IH.
    + rewrite filter_cons_False by done. cbn [length]. rewrite Forall_cons.
      pose proof (length_filter P l) as Hle. split; [lia|]. by intros [? _].
Qed.

Lemma filter_all {A : Type} (P : A → Prop) `{!∀ x, Decision (P x)} (l : list A) :
  Forall P l → filter P l = l.
Proof.
  induction 1 as [|x l HP Hall IH]; [done|].
  rewrite filter_cons_True by done. by rewrite IH.
Qed.

(** ** [removeSession] and [removeAllSessions] as store transformers *)

Lemma removeSession_no_match (st : Store) (caller friendPrincipal : string)
    (userSessions : list Session.t) :
  userChatIDs st !! caller = Some userSessions →
  Forall (λ session, Session.user session ≠ friendPrincipal) userSessions →
  removeSession st caller friendPrincipal = (Err (NotFound not_found_text), st).
Proof.
  intros Hdir Hall. unfold removeSession. rewrite Hdir.
  pose proof (filterSessions_kept friendPrincipal userSessions 0) as Hkept.
  destruct (filterSessions friendPrincipal userSessions 0) as [removedID newSession].
  cbn [snd] in Hkept. subst newSession.
  rewrite decide_True; [done|]. by apply filter_length_eq.
Qed.

Lemma removeSession_match (st : Store) (caller friendPrincipal : string)
    (userSessions : list Session.t) :
  userChatIDs st !! caller = Some userSessions →
  ¬ Forall (λ session, Session.user session ≠ friendPrincipal) userSessions →
  let removedID := fold_left (scanStep friendPrincipal) userSessions 0 in
  let uc :=
    <[caller := filter (λ session, Session.user session ≠ friendPrincipal) userSessions]>
      (userChatIDs st) in
  removeSession st caller friendPrincipal =
  (Ok true,
   mkStore uc (delete removedID (chatData st))
     match uc !! friendPrincipal with
     | None => unreadMessages st
     | Some _ =>
         purgeNotifications caller removedID
           (purgeNotifications friendPrincipal removedID (unreadMessages st))
     end).
Proof.
  intros Hdir Hsome removedID uc. unfold removeSession. rewrite Hdir.
  pose proof (filterSessions_kept friendPrincipal userSessions 0) as Hkept.
  pose proof (filterSessions_removedID friendPrincipal userSessions 0) as Hid.
  destruct (filterSessions friendPrincipal userSessions 0) as [rid newSession].
  cbn [fst snd] in Hkept, Hid. subst rid newSession.
  rewrite decide_False by (by rewrite filter_length_eq).
  fold removedID uc.
  destruct (cascade_always uc caller friendPrincipal removedID 0
              (chatData st) (unreadMessages st)) as [next' ->].
  done.
Qed.

Lemma removeSession_directory (st : Store) (caller friendPrincipal : string)
    (userSessions : list Session.t) :
  userChatIDs st !! caller = Some userSessions →
  userChatIDs (removeSession st caller friendPrincipal).2 =
  <[caller := filter (λ session, Session.user session ≠ friendPrincipal) userSessions]>
    (userChatIDs st).
Proof.
  intros Hdir.
  destruct (decide (Forall (λ session, Session.user session ≠ friendPrincipal) userSessions))
    as [Hall|Hsome].
  - rewrite (removeSession_no_match _ _ _ _ Hdir Hall). cbn [snd].
    rewrite filter_all by done. symmetry. by apply insert_id.
  - by rewrite (removeSession_match _ _ _ _ Hdir Hsome).
Qed.

Lemma removeSession_no_directory (st : Store) (caller friendPrincipal : string) :
  userChatIDs st !! caller = None →
  removeSession st caller friendPrincipal = (Err (NoSession no_session_text), st).
Proof. intros Hdir. unfold removeSession. by rewrite Hdir. Qed.

Lemma removeAllSessions_directory (st : Store) (caller : string) :
  is_Some (userChatIDs st !! caller) →
  (removeAllSessions st caller).1 = Ok true ∧
  userChatIDs (removeAllSessions st caller).2 = <[caller := []]> (userChatIDs st).
Proof.
  intros [userSessions Hdir]. unfold removeAllSessions. rewrite Hdir.
  destruct (fold_left _ userSessions _) as [[next cd] um]. done.
Qed.

Lemma removeAllSessions_no_directory (st : Store) (caller : string) :
  userChatIDs st !! caller = None →
  removeAllSessions st caller = (Err (NoSession no_session_text), st).
Proof. intros Hdir. unfold removeAllSessions. by rewrite Hdir. Qed.

(** ** C7: removing a session that is not there *)

(** C7.  When the caller has a directory entry but no session with the
    given counterparty, [removeSession] returns [NotFound] and the
    store (directory, message log, notification queues) is returned
    unchanged.  Hence, whatever the first [removeSession] of a caller
    with a directory entry did, a second one for the same counterparty
    returns [NotFound] and changes nothing. *)
Theorem removeSession_absent_NotFound (st : Store) (caller friendPrincipal : string) :
  is_Some (userChatIDs st !! caller) →
  (∀ userSessions,
      userChatIDs st !! caller = Some userSessions →
      Forall (λ session, Session.user session ≠ friendPrincipal) userSessions →
      removeSession st caller friendPrincipal = (Err (NotFound not_found_text), st))
  ∧
  (let st1 := (removeSession st caller friendPrincipal).2 in
   removeSession st1 caller friendPrincipal = (Err (NotFound not_found_text), st1)).
Proof.
  intros [userSessions Hdir]. split.
  - intros sessions Hsessions. by apply removeSession_no_match.
  - intros st1.
    apply removeSession_no_match
      with (userSessions := filter (λ session, Session.user session ≠ friendPrincipal) userSessions).
    + unfold st1. rewrite (removeSession_directory _ _ _ _ Hdir).
      apply lookup_insert_eq.
    + apply Forall_forall. intros s Hs. by apply list_elem_of_filter in Hs as [? _].
Qed.

Lemma removeSession_absent_NotFound_witness :
  let st := mkStore {[ "alice"%string := [Session.mk 7 "bob"; Session.mk 9 "carol"] ]}
                    {[ 7 := []; 9 := [] ]} ∅ in
  is_Some (userChatIDs st !! "alice"%string) ∧
  removeSession st "alice" "dave" = (Err (NotFound not_found_text), st) ∧
  (removeSession st "alice" "bob").1 = Ok true ∧
  (removeSession (removeSession st "alice" "bob").2 "alice" "bob").1 =
    Err (NotFound not_found_text).
Proof.
  intros st.
  assert (Hdir : is_Some (userChatIDs st !! "alice"%string)) by (vm_compute; eauto).
  pose proof (removeSession_absent_NotFound st "alice" "dave" Hdir) as [Hfirst _].
  pose proof (removeSession_absent_NotFound st "alice" "bob" Hdir) as [_ Hsecond].
  split; [exact Hdir|]. split.
  - apply (Hfirst [Session.mk 7 "bob"; Session.mk 9 "carol"]); [reflexivity|].
    repeat constructor; cbn; congruence.
  - split; [vm_compute; reflexivity|].
    cbv zeta in Hsecond. by rewrite Hsecond.
Defined.

(** ** C9: [removeAllSessions] leaves an empty directory entry *)

(** C9.  A successful [removeAllSessions] leaves the caller with a
    directory entry holding the empty list (the entry is not deleted):
    a second [removeAllSessions] right after it returns [Ok] again and
    changes nothing, and [getAllSessions] returns the empty list, not
    [NoSession]. *)
Theorem removeAllSessions_keeps_empty_entry (st st' : Store) (caller : string) :
  removeAllSessions st caller = (Ok true, st') →
  userChatIDs st' !! caller = Some [] ∧
  removeAllSessions st' caller = (Ok true, st') ∧
  getAllSessions st' caller = Ok [].
Proof.
  intros Hcall.
  assert (Hdir : is_Some (userChatIDs st !! caller)).
  { destruct (userChatIDs st !! caller) eqn:E; [by eexists|].
    rewrite removeAllSessions_no_directory in Hcall by done. discriminate. }
  destruct (removeAllSessions_directory st caller Hdir) as [_ Huc].
  rewrite Hcall in Huc. cbn [snd] in Huc.
  assert (Hempty : userChatIDs st' !! caller = Some []).
  { rewrite Huc. apply lookup_insert_eq. }
  split; [exact Hempty|]. split.
  - unfold removeAllSessions. rewrite Hempty. cbn [fold_left].
    rewrite insert_id by done. by destruct st'.
  - unfold getAllSessions. by rewrite Hempty.
Qed.

Lemma removeAllSessions_keeps_empty_entry_witness :
  let st := mkStore {[ "alice"%string := [Session.mk 7 "bob"; Session.mk 9 "carol"] ]}
                    {[ 7 := []; 9 := [] ]} ∅ in
  let st' := (removeAllSessions st "alice").2 in
  removeAllSessions st "alice" = (Ok true, st') ∧
  userChatIDs st' !! "alice"%string = Some [] ∧
  removeAllSessions st' "alice" = (Ok true, st') ∧
  getAllSessions st' "alice" = Ok [].
Proof.
  intros st st'.
  assert (Hcall : removeAllSessions st "alice" = (Ok true, st')) by (vm_compute; reflexivity).
  split; [exact Hcall|].
  exact (removeAllSessions_keeps_empty_entry st st' "alice" Hcall).
Defined.

(** ** [createSession] *)

Lemma createSession_inv (st st' : Store) (caller friendPrincipal : string)
    (draws : list Q) (r : Result bool Error) :
  createSession st caller friendPrincipal draws = Some (r, st') →
  ∃ newID,
    generateNewID (chatData st) draws = Some newID ∧
    match userChatIDs st !! caller with
    | None =>
        r = Ok true ∧
        st' = mkStore (<[caller := [Session.mk newID friendPrincipal]]> (userChatIDs st))
                      (<[newID := []]> (chatData st)) (unreadMessages st)
    | Some userSessions =>
        (r = Err (MaxSessionsReached max_sessions_text) ∧ st' = st ∧
         (MAXIMUM_SESSIONS < length userSessions)%nat)
        ∨ (r = Err (DuplicateAttempt duplicate_text) ∧ st' = st ∧
           (length userSessions ≤ MAXIMUM_SESSIONS)%nat ∧
           Exists (λ session, Session.user session = friendPrincipal) userSessions)
        ∨ (r = Ok true ∧
           (length userSessions ≤ MAXIMUM_SESSIONS)%nat ∧
           ¬ Exists (λ session, Session.user session = friendPrincipal) userSessions ∧
           st' = mkStore
                   (<[caller := userSessions ++ [Session.mk newID friendPrincipal]]>
                      (userChatIDs st))
                   (<[newID := []]> (chatData st)) (unreadMessages st))
    end.
Proof.
  unfold createSession. intros Hcall.
  destruct (generateNewID (chatData st) draws) as [newID|]; [|discriminate].
  exists newID. split; [done|].
  destruct (userChatIDs st !! caller) as [userSessions|].
  - destruct (MAXIMUM_SESSIONS <? length userSessions)%nat eqn:Hmax.
    + apply Nat.ltb_lt in Hmax. left. by simplify_eq.
    + apply Nat.ltb_ge in Hmax. right. case_decide; simplify_eq; [left|right]; done.
  - by simplify_eq.
Qed.

Lemma generateNewID_fresh (cd : gmap Z (list Message.t)) (draws : list Q) (newID : Z) :
  generateNewID cd draws = Some newID → cd !! newID = None.
Proof.
  induction draws as [|r rest IH]; [done|]. cbn [generateNewID].
  case_decide as Hkey; [done|]. intros [= <-].
  by apply eq_None_not_Some.
Qed.

(** ** C8: the id of a session just created *)

(** C8.  If [createSession caller counterparty] succeeds, the caller's
    list holds a session with that counterparty carrying the id the
    generate-and-check loop produced, and [getSessionID caller
    counterparty] on the resulting store returns [Ok] of that id. *)
Theorem createSession_then_getSessionID (st st' : Store)
    (caller friendPrincipal : string) (draws : list Q) :
  createSession st caller friendPrincipal draws = Some (Ok true, st') →
  ∃ newID userSessions,
    generateNewID (chatData st) draws = Some newID ∧
    userChatIDs st' !! caller = Some userSessions ∧
    Session.mk newID friendPrincipal ∈ userSessions ∧
    getSessionID st' caller friendPrincipal = Ok newID.
Proof.
  intros Hcall. apply createSession_inv in Hcall as (newID & Hgen & Hcase).
  exists newID. unfold getSessionID.
  destruct (userChatIDs st !! caller) as [old|].
  - destruct Hcase as [(? & _)|[(? & _)|(_ & _ & Hfresh & ->)]]; [done..|].
    exists (old ++ [Session.mk newID friendPrincipal]). cbn [userChatIDs].
    rewrite lookup_insert_eq, firstSessionID_app_fresh by done.
    repeat split; [done|]. apply elem_of_app. right. by apply list_elem_of_singleton.
  - destruct Hcase as [_ ->]. exists [Session.mk newID friendPrincipal].
    cbn [userChatIDs]. rewrite lookup_insert_eq. cbn. rewrite decide_True by done.
    repeat split; [done|]. by apply list_elem_of_singleton.
Qed.

Lemma createSession_then_getSessionID_witness :
  let st := mkStore {[ "alice"%string := [Session.mk 7 "bob"] ]} {[ 7 := [] ]} ∅ in
  let draws := [Qmake 7 INTEGER_LIMIT_pos; Qmake 1 2] in
  ∃ st', createSession st "alice" "carol" draws = Some (Ok true, st') ∧
         getSessionID st' "alice" "carol" = Ok 4503599627370495.
Proof.
  intros st draws.
  exists (mkStore {[ "alice"%string := [Session.mk 7 "bob"; Session.mk 4503599627370495 "carol"] ]}
                  {[ 7 := []; 4503599627370495 := [] ]} ∅).
  assert (Hcall : createSession st "alice" "carol" draws =
                  Some (Ok true,
                        mkStore {[ "alice"%string :=
                                     [Session.mk 7 "bob"; Session.mk 4503599627370495 "carol"] ]}
                                {[ 7 := []; 4503599627370495 := [] ]} ∅))
    by (vm_compute; reflexivity).
  split; [exact Hcall|].
  destruct (createSession_then_getSessionID _ _ _ _ _ Hcall)
    as (newID & userSessions & Hgen & _ & _ & Hget).
  rewrite Hget. f_equal.
  assert (Hid : generateNewID (chatData st) draws = Some 4503599627370495)
    by (vm_compute; reflexivity).
  congruence.
Defined.

(** ** C5: one session per counterparty *)

Lemma uniqueCounterparties_insert (st st' : Store) (caller : string)
    (userSessions : list Session.t) :
  uniqueCounterparties st →
  NoDup (Session.user <$> userSessions) →
  userChatIDs st' = <[caller := userSessions]> (userChatIDs st) →
  uniqueCounterparties st'.
Proof.
  intros Hinv Hnew Huc who l. rewrite Huc, lookup_insert.
  case_decide; [by intros [= <-]|]. apply Hinv.
Qed.

Lemma createSession_unique (st st' : Store) (caller friendPrincipal : string)
    (draws : list Q) (r : Result bool Error) :
  uniqueCounterparties st →
  createSession st caller friendPrincipal draws = Some (r, st') →
  uniqueCounterparties st'.
Proof.
  intros Hinv Hcall. apply createSession_inv in Hcall as (newID & _ & Hcase).
  destruct (userChatIDs st !! caller) as [old|] eqn:Hdir.
  - destruct Hcase as [(_ & -> & _)|[(_ & -> & _)|(_ & _ & Hfresh & ->)]]; [done..|].
    eapply uniqueCounterparties_insert; [done| |done].
    rewrite fmap_app. apply NoDup_app. split; [by eapply Hinv|]. split.
    + intros u Hu Hu'. apply list_elem_of_singleton in Hu'. cbn in Hu'. subst u.
      apply list_elem_of_fmap in Hu as (s & Hs & Hin).
      apply Hfresh. apply Exists_exists. by exists s.
    + apply NoDup_singleton.
  - destruct Hcase as [_ ->].
    eapply uniqueCounterparties_insert; [done| |done]. apply NoDup_singleton.
Qed.

Lemma removeSession_unique (st : Store) (caller friendPrincipal : string) :
  uniqueCounterparties st →
  uniqueCounterparties (removeSession st caller friendPrincipal).2.
Proof.
  intros Hinv. destruct (userChatIDs st !! caller) as [userSessions|] eqn:Hdir.
  - eapply uniqueCounterparties_insert; [done| |by apply removeSession_directory].
    eapply sublist_NoDup; [by eapply Hinv|].
    apply fmap_sublist, sublist_filter.
  - by rewrite removeSession_no_directory.
Qed.

Lemma removeAllSessions_unique (st : Store) (caller : string) :
  uniqueCounterparties st →
  uniqueCounterparties (removeAllSessions st caller).2.
Proof.
  intros Hinv. destruct (userChatIDs st !! caller) as [userSessions|] eqn:Hdir.
  - eapply uniqueCounterparties_insert; [done| |by apply removeAllSessions_directory].
    apply NoDup_nil_2.
  - by rewrite removeAllSessions_no_directory.
Qed.

Lemma runCalls_unique (calls : list SessionCall) (st st' : Store) :
  uniqueCounterparties st →
  runCalls st calls = Some st' →
  uniqueCounterparties st'.
Proof.
  revert st. induction calls as [|call rest IH]; intros st Hinv Hrun.
  - cbn in Hrun. by simplify_eq.
  - cbn [runCalls] in Hrun. destruct (runCall st call) as [st1|] eqn:Hcall; [|done].
    apply (IH st1); [|done]. destruct call as [caller f draws|caller f|caller]; cbn in Hcall.
    + destruct (createSession st caller f draws) as [[r st2]|] eqn:Hcreate; [|done].
      cbn in Hcall. simplify_eq. by eapply createSession_unique.
    + simplify_eq. by apply removeSession_unique.
    + simplify_eq. by apply removeAllSessions_unique.
Qed.

(** C5.  In every store reached from the empty store by a sequence of
    [createSession], [removeSession] and [removeAllSessions] calls (by
    any callers, with any values drawn from the random source), the
    counterparties within each caller's session list are pairwise
    distinct. *)
Theorem reachable_unique_counterparties (calls : list SessionCall) (st : Store)
    (caller : string) (userSessions : list Session.t) :
  runCalls emptyStore calls = Some st →
  userChatIDs st !! caller = Some userSessions →
  NoDup (Session.user <$> userSessions).
Proof.
  intros Hrun. revert caller userSessions.
  change (uniqueCounterparties st).
  eapply runCalls_unique; [|done].
  intros who l Hl. cbn in Hl. by rewrite lookup_empty in Hl.
Qed.

Lemma reachable_unique_counterparties_witness :
  let calls :=
    [ CallCreateSession "alice" "bob" [Qmake 1 2];
      CallCreateSession "alice" "carol" [Qmake 1 2; Qmake 1 4];
      CallCreateSession "alice" "bob" [Qmake 1 8];
      CallCreateSession "bob" "alice" [Qmake 1 16];
      CallRemoveSession "alice" "bob";
      CallCreateSession "alice" "bob" [Qmake 1 32];
      CallRemoveAllSessions "bob" ] in
  let userSessions :=
    [ Session.mk 2251799813685247 "carol"; Session.mk 281474976710655 "bob" ] in
  ∃ st, runCalls emptyStore calls = Some st ∧
        userChatIDs st !! "alice"%string = Some userSessions ∧
        NoDup (Session.user <$> userSessions).
Proof.
  intros calls userSessions.
  destruct (runCalls emptyStore calls) as [st|] eqn:Hrun; [|vm_compute in Hrun; discriminate].
  exists st. split; [reflexivity|].
  assert (Hdir : userChatIDs st !! "alice"%string = Some userSessions).
  { vm_compute in Hrun. injection Hrun as <-. vm_compute. reflexivity. }
  split; [exact Hdir|].
  exact (reachable_unique_counterparties calls st "alice" userSessions Hrun Hdir).
Defined.

(** ** Resolving the session of a counterparty *)

Lemma NoDup_fmap_inj_on {A B : Type} (f : A → B) (l : list A) (x y : A) :
  NoDup (f <$> l) → x ∈ l → y ∈ l → f x = f y → x = y.
Proof.
  induction l as [|a l IH]; intros Hnd Hx Hy Heq.
  - by apply elem_of_nil in Hx.
  - rewrite fmap_cons in Hnd. apply NoDup_cons in Hnd as [Ha Hnd].
    apply elem_of_cons in Hx as [->|Hx]; apply elem_of_cons in Hy as [->|Hy].
    + done.
    + exfalso. apply Ha. rewrite Heq. by apply list_elem_of_fmap_2.
    + exfalso. apply Ha. rewrite <- Heq. by apply list_elem_of_fmap_2.
    + by apply IH.
Qed.

Lemma holdsSession_of_unique (st : Store) (caller counterparty : string) (sid : Z)
    (userSessions : list Session.t) :
  userChatIDs st !! caller = Some userSessions →
  NoDup (Session.user <$> userSessions) →
  Session.mk sid counterparty ∈ userSessions →
  holdsSession st caller counterparty sid.
Proof.
  intros Hdir Hnd Hin. exists userSessions. repeat split; [done..|].
  intros session Hs Huser.
  by rewrite (NoDup_fmap_inj_on Session.user userSessions session
                (Session.mk sid counterparty) Hnd Hs Hin Huser).
Qed.

Lemma scan_single_id (sessions : list Session.t) (target : string) (sid ID : Z) :
  (∀ session, session ∈ sessions → Session.user session = target → Session.id session = sid) →
  ID = sid ∨ Exists (λ session, Session.user session = target) sessions →
  fold_left (scanStep target) sessions ID = sid.
Proof.
  revert ID. induction sessions as [|s rest IH]; intros ID Hall Hcase.
  - destruct Hcase as [->|Hex]; [done|]. by apply Exists_nil in Hex.
  - cbn [fold_left]. apply IH.
    + intros s' Hs'. apply Hall. by apply list_elem_of_further.
    + unfold scanStep. destruct (decide (Session.user s = target)) as [Hs|Hs].
      * left. apply Hall; [apply list_elem_of_here|done].
      * destruct Hcase as [->|Hex]; [by left|]. right.
        apply Exists_cons in Hex as [?|?]; done.
Qed.

Lemma holdsSession_scan (st : Store) (caller counterparty : string) (sid : Z) :
  holdsSession st caller counterparty sid →
  ∃ userSessions,
    userChatIDs st !! caller = Some userSessions ∧
    scanSessionID userSessions counterparty = sid.
Proof.
  intros (userSessions & Hdir & Hin & Hall). exists userSessions. split; [done|].
  rewrite scanSessionID_fold. apply scan_single_id; [done|]. right.
  apply Exists_exists. by exists (Session.mk sid counterparty).
Qed.

(** ** [sendMessage] on a resolved session *)

Lemma sendMessage_resolved (st : Store) (caller receiver : string) (sid : Z)
    (message : string) (now : Z) :
  holdsSession st caller receiver sid →
  sid ≠ 0 →
  sendMessage st caller receiver message now =
  let newMessage := Message.mk caller receiver message now in
  let um := enqueued receiver (MessageNotification.mk caller sid now) (unreadMessages st) in
  match chatData st !! sid with
  | None => (Ok true, mkStore (userChatIDs st) (<[sid := [newMessage]]> (chatData st)) um)
  | Some currentMessages =>
      if (MAX_MSG_PER_SESSION <? length currentMessages)%nat
      then (Err (MaxMessageReached max_message_text), st)
      else (Ok true,
            mkStore (userChatIDs st)
                    (<[sid := currentMessages ++ [newMessage]]> (chatData st)) um)
  end.
Proof.
  intros (userSessions & Hdir & Hscan)%holdsSession_scan Hnz.
  unfold sendMessage, enqueued. rewrite Hdir, Hscan, decide_False by done.
  destruct (chatData st !! sid) as [cur|];
    [destruct (MAX_MSG_PER_SESSION <? length cur)%nat; [done|]|];
    by destruct (unreadMessages st !! receiver).
Qed.

Lemma sendMessage_zero (st : Store) (caller receiver : string)
    (message : string) (now : Z) :
  holdsSession st caller receiver 0 →
  sendMessage st caller receiver message now = (Err (NotFound not_detected_text), st).
Proof.
  intros (userSessions & Hdir & Hscan)%holdsSession_scan.
  unfold sendMessage. by rewrite Hdir, Hscan, decide_True.
Qed.

Lemma holdsSession_same_directory (st st' : Store) (caller counterparty : string) (sid : Z) :
  userChatIDs st' = userChatIDs st →
  holdsSession st caller counterparty sid → holdsSession st' caller counterparty sid.
Proof. intros Huc (l & Hdir & H). exists l. by rewrite Huc. Qed.

Lemma sendMessages_within_cap (batch : list (string * Z)) (st : Store)
    (caller receiver : string) (sid : Z) (msgs : list Message.t) :
  holdsSession st caller receiver sid →
  sid ≠ 0 →
  chatData st !! sid = Some msgs →
  (length msgs + length batch ≤ S MAX_MSG_PER_SESSION)%nat →
  ∃ st',
    sendMessages st caller receiver batch = (replicate (length batch) (Ok true), st') ∧
    userChatIDs st' = userChatIDs st ∧
    chatData st' !! sid =
      Some (msgs ++ ((λ '(message, now), Message.mk caller receiver message now) <$> batch)).
Proof.
  revert st msgs. induction batch as [|[message now] rest IH]; intros st msgs Hs Hnz Hlog Hlen.
  - exists st. cbn. by rewrite app_nil_r.
  - cbn [sendMessages]. rewrite (sendMessage_resolved _ _ _ sid) by done.
    cbv zeta. rewrite Hlog. cbn [length] in Hlen.
    destruct (MAX_MSG_PER_SESSION <? length msgs)%nat eqn:Hmax;
      [apply Nat.ltb_lt in Hmax; lia|].
    set (st1 := mkStore _ _ _).
    destruct (IH st1 (msgs ++ [Message.mk caller receiver message now]))
      as (st' & Hrun & Huc & Hlog'); [by eapply holdsSession_same_directory|done| | |].
    + cbn. apply lookup_insert_eq.
    + rewrite length_app. cbn. lia.
    + exists st'. rewrite Hrun. cbn [length replicate]. repeat split; [done|].
      rewrite Hlog', fmap_cons, <- app_assoc. done.
Qed.

(** ** C2: the message cap *)

(** The message cap away from the sentinel id.  Let the caller hold a
    session with the receiver under a non-zero id whose message log
    exists.  Then [sendMessage] returns [MaxMessageReached] exactly when
    the log holds strictly more than [MAX_MSG_PER_SESSION] entries
    before the append; with at most that many entries the send succeeds
    and appends the message; starting from the empty log the first
    [MAX_MSG_PER_SESSION + 1] sends all succeed and every further one
    fails with [MaxMessageReached]; and a log of at most
    [MAX_MSG_PER_SESSION + 1] entries never grows beyond that. *)
Theorem sendMessage_cap (st : Store) (caller receiver : string) (sid : Z)
    (msgs : list Message.t) :
  holdsSession st caller receiver sid →
  sid ≠ 0 →
  chatData st !! sid = Some msgs →
  (∀ message now,
      (sendMessage st caller receiver message now).1 = Err (MaxMessageReached max_message_text)
      ↔ (MAX_MSG_PER_SESSION < length msgs)%nat)
  ∧ (∀ message now,
        (length msgs ≤ MAX_MSG_PER_SESSION)%nat →
        (sendMessage st caller receiver message now).1 = Ok true ∧
        chatData (sendMessage st caller receiver message now).2 !! sid =
          Some (msgs ++ [Message.mk caller receiver message now]))
  ∧ (∀ batch,
        msgs = [] → length batch = S MAX_MSG_PER_SESSION →
        ∃ st' log,
          sendMessages st caller receiver batch =
            (replicate (S MAX_MSG_PER_SESSION) (Ok true), st') ∧
          chatData st' !! sid = Some log ∧
          length log = S MAX_MSG_PER_SESSION ∧
          ∀ message now,
            sendMessage st' caller receiver message now =
              (Err (MaxMessageReached max_message_text), st'))
  ∧ (∀ message now log',
        (length msgs ≤ S MAX_MSG_PER_SESSION)%nat →
        chatData (sendMessage st caller receiver message now).2 !! sid = Some log' →
        (length log' ≤ S MAX_MSG_PER_SESSION)%nat).
Proof.
  intros Hs Hnz Hlog.
  assert (Hsend : ∀ message now,
             sendMessage st caller receiver message now =
             if (MAX_MSG_PER_SESSION <? length msgs)%nat
             then (Err (MaxMessageReached max_message_text), st)
             else (Ok true,
                   mkStore (userChatIDs st)
                     (<[sid := msgs ++ [Message.mk caller receiver message now]]> (chatData st))
                     (enqueued receiver (MessageNotification.mk caller sid now)
                        (unreadMessages st)))).
  { intros message now. rewrite (sendMessage_resolved _ _ _ sid) by done.
    cbv zeta. by rewrite Hlog. }
  repeat apply conj.
  - intros message now. rewrite Hsend.
    destruct (MAX_MSG_PER_SESSION <? length msgs)%nat eqn:Hmax.
    + apply Nat.ltb_lt in Hmax. done.
    + apply Nat.ltb_ge in Hmax. cbn [fst]. split; [discriminate|lia].
  - intros message now Hlen. rewrite Hsend.
    destruct (MAX_MSG_PER_SESSION <? length msgs)%nat eqn:Hmax;
      [apply Nat.ltb_lt in Hmax; lia|].
    cbn [fst snd chatData]. split; [done|apply lookup_insert_eq].
  - intros batch -> Hlen.
    destruct (sendMessages_within_cap batch st caller receiver sid [] Hs Hnz Hlog)
      as (st' & Hrun & Huc & Hlog'); [cbn [length]; lia|].
    rewrite Hlen in Hrun. cbn [app] in Hlog'.
    eexists st', _. repeat split; [done..|by rewrite length_fmap|].
    intros message now. rewrite (sendMessage_resolved _ _ _ sid);
      [|by eapply holdsSession_same_directory|done].
    cbv zeta. rewrite Hlog', length_fmap, Hlen.
    by rewrite (proj2 (Nat.ltb_lt _ _)) by lia.
  - intros message now log' Hlen. rewrite Hsend.
    destruct (MAX_MSG_PER_SESSION <? length msgs)%nat eqn:Hmax; cbn [snd chatData].
    + rewrite Hlog. by intros [= <-].
    + apply Nat.ltb_ge in Hmax. rewrite lookup_insert_eq. intros [= <-].
      rewrite length_app. cbn. lia.
Qed.

Lemma sendMessage_cap_witness :
  let st := mkStore {[ "alice"%string := [Session.mk 7 "bob"] ]} {[ 7 := [] ]} ∅ in
  holdsSession st "alice" "bob" 7 ∧ 7 ≠ 0 ∧ chatData st !! 7 = Some [] ∧
  (sendMessage st "alice" "bob" "hi" 1).1 = Ok true ∧
  chatData (sendMessage st "alice" "bob" "hi" 1).2 !! 7 =
    Some [Message.mk "alice" "bob" "hi" 1].
Proof.
  intros st.
  assert (Hs : holdsSession st "alice" "bob" 7).
  { apply (holdsSession_of_unique _ _ _ _ [Session.mk 7 "bob"]);
      [reflexivity|apply NoDup_singleton|apply list_elem_of_here]. }
  assert (Hnz : 7 ≠ 0) by lia.
  assert (Hlog : chatData st !! 7 = Some []) by reflexivity.
  split; [exact Hs|]. split; [exact Hnz|]. split; [exact Hlog|].
  destruct (sendMessage_cap st "alice" "bob" 7 [] Hs Hnz Hlog) as (_ & Happend & _).
  apply (Happend "hi"%string 1). cbn. unfold MAX_MSG_PER_SESSION. lia.
Defined.

Lemma zeroIdStore_holdsSession : holdsSession zeroIdStore "alice" "bob" 0.
Proof.
  apply (holdsSession_of_unique _ _ _ _ [Session.mk 0 "bob"]);
    [reflexivity|apply NoDup_singleton|apply list_elem_of_here].
Qed.

(** C2 (the code departs from it).  [createSession] with
    [Math.random()] returning [0] leaves alice with a session with bob
    whose id is [0]; its log exists and is empty, and [getSessionID]
    finds it.  The claim has the first [MAX_MSG_PER_SESSION + 1] sends
    into a session succeed; the code rejects every send into this one,
    the first included, with [NotFound], and appends nothing. *)
Theorem sendMessage_zero_id_session_rejected :
  createSession emptyStore "alice" "bob" [Qmake 0 1] = Some (Ok true, zeroIdStore) ∧
  userChatIDs zeroIdStore !! "alice"%string = Some [Session.mk 0 "bob"] ∧
  getSessionID zeroIdStore "alice" "bob" = Ok 0 ∧
  chatData zeroIdStore !! 0 = Some [] ∧
  (length ([] : list Message.t) ≤ MAX_MSG_PER_SESSION)%nat ∧
  (sendMessage zeroIdStore "alice" "bob" "hi" 1).1 ≠ Ok true ∧
  ∀ message now,
    sendMessage zeroIdStore "alice" "bob" message now =
      (Err (NotFound not_detected_text), zeroIdStore).
Proof.
  split; [vm_compute; reflexivity|]. split; [reflexivity|]. split; [reflexivity|].
  split; [reflexivity|]. split; [cbn; unfold MAX_MSG_PER_SESSION; lia|].
  split.
  - by rewrite (sendMessage_zero _ _ _ _ _ zeroIdStore_holdsSession).
  - intros message now. apply sendMessage_zero, zeroIdStore_holdsSession.
Qed.

(** ** The missing-log branch of [sendMessage] *)

(** The branch of [sendMessage] for a missing log, on a store that has
    one (the update methods produce none: they keep a log entry for
    every listed session).  When the caller
    lists a session with the receiver under a non-zero id and the
    message log has no entry at that id, [sendMessage] succeeds
    whatever the size of anything else (no [MaxMessageReached] test is
    made): it creates the log entry holding exactly the new message,
    appends one notification to the receiver's queue (creating the
    queue when absent) and leaves the directory as it was. *)
Theorem sendMessage_missing_log (st : Store) (caller receiver : string) (sid : Z)
    (message : string) (now : Z) :
  holdsSession st caller receiver sid →
  sid ≠ 0 →
  chatData st !! sid = None →
  sendMessage st caller receiver message now =
  (Ok true,
   mkStore (userChatIDs st)
           (<[sid := [Message.mk caller receiver message now]]> (chatData st))
           (<[receiver := default [] (unreadMessages st !! receiver)
                          ++ [MessageNotification.mk caller sid now]]> (unreadMessages st))).
Proof.
  intros Hs Hnz Hlog. rewrite (sendMessage_resolved _ _ _ sid) by done.
  cbv zeta. by rewrite Hlog.
Qed.

Lemma sendMessage_missing_log_witness :
  let st := mkStore {[ "alice"%string := [Session.mk 7 "bob"] ]} ∅ ∅ in
  holdsSession st "alice" "bob" 7 ∧ 7 ≠ 0 ∧ chatData st !! 7 = None ∧
  sendMessage st "alice" "bob" "hi" 1 =
  (Ok true,
   mkStore {[ "alice"%string := [Session.mk 7 "bob"] ]}
           {[ 7 := [Message.mk "alice" "bob" "hi" 1] ]}
           {[ "bob"%string := [MessageNotification.mk "alice" 7 1] ]}).
Proof.
  intros st.
  assert (Hs : holdsSession st "alice" "bob" 7).
  { apply (holdsSession_of_unique _ _ _ _ [Session.mk 7 "bob"]);
      [reflexivity|apply NoDup_singleton|apply list_elem_of_here]. }
  assert (Hnz : 7 ≠ 0) by lia.
  assert (Hlog : chatData st !! 7 = None) by reflexivity.
  split; [exact Hs|]. split; [exact Hnz|]. split; [exact Hlog|].
  rewrite (sendMessage_missing_log st "alice" "bob" 7 "hi" 1 Hs Hnz Hlog).
  vm_compute. reflexivity.
Defined.

(** On such a store, when the listed session carries the sentinel id
    [0], [sendMessage] returns [NotFound], creates no log entry and
    enqueues no notification. *)
Lemma sendMessage_missing_log_zero_id :
  let st := mkStore {[ "alice"%string := [Session.mk 0 "bob"] ]} ∅ ∅ in
  holdsSession st "alice" "bob" 0 ∧
  chatData st !! 0 = None ∧
  sendMessage st "alice" "bob" "hi" 1 = (Err (NotFound not_detected_text), st) ∧
  chatData (sendMessage st "alice" "bob" "hi" 1).2 !! 0 = None ∧
  unreadMessages (sendMessage st "alice" "bob" "hi" 1).2 !! "bob"%string = None.
Proof.
  intros st.
  assert (Hs : holdsSession st "alice" "bob" 0).
  { apply (holdsSession_of_unique _ _ _ _ [Session.mk 0 "bob"]);
      [reflexivity|apply NoDup_singleton|apply list_elem_of_here]. }
  rewrite (sendMessage_zero _ _ _ _ _ Hs). by repeat split.
Qed.

(** ** C6: [viewMessages] *)

Lemma purgeNotifications_lookup (who other : string) (sid : Z)
    (um : gmap string (list MessageNotification.t)) :
  purgeNotifications who sid um !! other =
  if decide (who = other)
  then filter (λ notification, MessageNotification.id notification ≠ sid) <$> um !! who
  else um !! other.
Proof.
  unfold purgeNotifications. destruct (um !! who) as [ns|] eqn:Hq.
  - rewrite lookup_insert. by case_decide.
  - case_decide; [by subst|done].
Qed.

(** [viewMessages] away from the sentinel id.  When the caller holds
    a session with the counterparty under a non-zero id whose message
    log exists, [viewMessages] returns the whole log in order, and the
    only change to the store is that the caller's own notification
    queue loses exactly its entries for that session id (the others
    stay, in order); every other queue, the directory and the message
    log are unchanged. *)
Theorem viewMessages_marks_read (st : Store) (caller friendPrincipal : string) (sid : Z)
    (msgs : list Message.t) :
  holdsSession st caller friendPrincipal sid →
  sid ≠ 0 →
  chatData st !! sid = Some msgs →
  ∃ st',
    viewMessages st caller friendPrincipal = (Ok msgs, st') ∧
    userChatIDs st' = userChatIDs st ∧
    chatData st' = chatData st ∧
    unreadMessages st' !! caller =
      (filter (λ notification, MessageNotification.id notification ≠ sid)
         <$> unreadMessages st !! caller) ∧
    ∀ other, other ≠ caller → unreadMessages st' !! other = unreadMessages st !! other.
Proof.
  intros (userSessions & Hdir & Hscan)%holdsSession_scan Hnz Hlog.
  unfold viewMessages. rewrite Hdir, Hscan, decide_False, Hlog by done.
  eexists. split; [done|]. cbn [userChatIDs chatData unreadMessages].
  repeat split.
  - by rewrite purgeNotifications_lookup, decide_True.
  - intros other Hother. by rewrite purgeNotifications_lookup, decide_False.
Qed.

Lemma viewMessages_marks_read_witness :
  let st :=
    mkStore {[ "bob"%string := [Session.mk 7 "alice"; Session.mk 9 "carol"] ]}
            {[ 7 := [Message.mk "bob" "alice" "hi" 1]; 9 := [] ]}
            {[ "bob"%string := [MessageNotification.mk "alice" 7 2;
                                MessageNotification.mk "carol" 9 3;
                                MessageNotification.mk "alice" 7 4];
               "alice"%string := [MessageNotification.mk "bob" 7 1] ]} in
  holdsSession st "bob" "alice" 7 ∧ 7 ≠ 0 ∧
  chatData st !! 7 = Some [Message.mk "bob" "alice" "hi" 1] ∧
  ∃ st',
    viewMessages st "bob" "alice" = (Ok [Message.mk "bob" "alice" "hi" 1], st') ∧
    unreadMessages st' !! "bob"%string = Some [MessageNotification.mk "carol" 9 3] ∧
    unreadMessages st' !! "alice"%string = Some [MessageNotification.mk "bob" 7 1].
Proof.
  intros st.
  assert (Hs : holdsSession st "bob" "alice" 7).
  { apply (holdsSession_of_unique _ _ _ _ [Session.mk 7 "alice"; Session.mk 9 "carol"]);
      [reflexivity| |apply list_elem_of_here].
    cbn. apply NoDup_cons. split; [|apply NoDup_singleton].
    intros Hin. apply list_elem_of_singleton in Hin. discriminate. }
  assert (Hnz : 7 ≠ 0) by lia.
  assert (Hlog : chatData st !! 7 = Some [Message.mk "bob" "alice" "hi" 1]) by reflexivity.
  split; [exact Hs|]. split; [exact Hnz|]. split; [exact Hlog|].
  destruct (viewMessages_marks_read st "bob" "alice" 7 _ Hs Hnz Hlog)
    as (st' & Hview & _ & _ & Hown & Hothers).
  exists st'. split; [exact Hview|]. split.
  - rewrite Hown. vm_compute. reflexivity.
  - rewrite Hothers by discriminate. vm_compute. reflexivity.
Defined.

(** C6 (the code departs from it).  [createSession] with
    [Math.random()] returning [0] leaves alice with a session with bob
    whose id is [0]; its log exists and [getSessionID] finds it.  The
    claim has [viewMessages] return the log of that session; the code
    returns [NotFound]. *)
Theorem viewMessages_zero_id_session_rejected :
  createSession emptyStore "alice" "bob" [Qmake 0 1] = Some (Ok true, zeroIdStore) ∧
  userChatIDs zeroIdStore !! "alice"%string = Some [Session.mk 0 "bob"] ∧
  getSessionID zeroIdStore "alice" "bob" = Ok 0 ∧
  chatData zeroIdStore !! 0 = Some [] ∧
  viewMessages zeroIdStore "alice" "bob" = (Err (NotFound not_found_text), zeroIdStore) ∧
  (viewMessages zeroIdStore "alice" "bob").1 ≠ Ok [].
Proof.
  split; [vm_compute; reflexivity|]. split; [reflexivity|]. split; [reflexivity|].
  split; [reflexivity|].
  assert (Hview : viewMessages zeroIdStore "alice" "bob" =
                  (Err (NotFound not_found_text), zeroIdStore))
    by (vm_compute; reflexivity).
  rewrite Hview. by split.
Qed.

(** ** The [includes] test of the cascade *)

(** Whenever the counterparty has a directory entry at all, a successful
    [removeSession] deletes the log entry of the removed id and purges
    that id from both notification queues, whether or not the
    counterparty lists the session back. *)
Lemma removeSession_cascades (st : Store) (caller friendPrincipal : string) (sid : Z) :
  holdsSession st caller friendPrincipal sid →
  is_Some (userChatIDs st !! friendPrincipal) →
  ∃ st',
    removeSession st caller friendPrincipal = (Ok true, st') ∧
    chatData st' = delete sid (chatData st) ∧
    unreadMessages st' =
      purgeNotifications caller sid
        (purgeNotifications friendPrincipal sid (unreadMessages st)).
Proof.
  intros (userSessions & Hdir & Hin & Hall) Hfriend.
  assert (Hsome : ¬ Forall (λ session, Session.user session ≠ friendPrincipal) userSessions).
  { intros HF. rewrite Forall_forall in HF. by apply (HF _ Hin). }
  rewrite (removeSession_match _ _ _ _ Hdir Hsome). cbv zeta.
  assert (Hid : fold_left (scanStep friendPrincipal) userSessions 0 = sid).
  { apply scan_single_id; [done|]. right. apply Exists_exists. by eexists. }
  rewrite Hid. eexists. split; [done|]. cbn [chatData unreadMessages]. split; [done|].
  rewrite lookup_insert. case_decide; [done|].
  destruct Hfriend as [l ->]. done.
Qed.

(** The [includes] test on a store it could matter for (the update
    methods produce none, see [reciprocalStore_unreachable]): in
    [reciprocalStore] bob lists the session back to alice under the
    same id, yet alice's [removeSession] deletes the log entry of that
    id and empties both notification queues of it. *)
Theorem removeSession_reciprocal_deletes_log :
  holdsSession reciprocalStore "alice" "bob" 5 ∧
  holdsSession reciprocalStore "bob" "alice" 5 ∧
  removeSession reciprocalStore "alice" "bob" =
  (Ok true,
   mkStore {[ "alice"%string := []; "bob"%string := [Session.mk 5 "alice"] ]}
           ∅
           {[ "alice"%string := []; "bob"%string := [] ]}).
Proof.
  split; [|split].
  - apply (holdsSession_of_unique _ _ _ _ [Session.mk 5 "bob"]);
      [reflexivity|apply NoDup_singleton|apply list_elem_of_here].
  - apply (holdsSession_of_unique _ _ _ _ [Session.mk 5 "alice"]);
      [reflexivity|apply NoDup_singleton|apply list_elem_of_here].
  - vm_compute. reflexivity.
Qed.

(** ** C3: the session cap *)

(** C3 (the code departs from it).  With exactly [MAXIMUM_SESSIONS]
    sessions (a store that [MAXIMUM_SESSIONS] successful calls build
    from the empty one) and a counterparty not yet listed,
    [createSession] succeeds and the list grows to
    [MAXIMUM_SESSIONS + 1]; only the call after that is rejected with
    [MaxSessionsReached]. *)
Theorem createSession_at_cap_accepted :
  runCalls emptyStore fullCalls = Some fullStore ∧
  userChatIDs fullStore !! "alice"%string = Some fullSessions ∧
  length fullSessions = MAXIMUM_SESSIONS ∧
  ¬ Exists (λ session, Session.user session = "zed"%string) fullSessions ∧
  ∃ st',
    createSession fullStore "alice" "zed" [Qmake 1 2] = Some (Ok true, st') ∧
    (length <$> userChatIDs st' !! "alice"%string) = Some (S MAXIMUM_SESSIONS) ∧
    createSession st' "alice" "yan" [Qmake 1 4] =
      Some (Err (MaxSessionsReached max_sessions_text), st').
Proof.
  split; [vm_compute; reflexivity|].
  split; [reflexivity|]. split; [reflexivity|]. split.
  - apply (proj1 (bool_decide_eq_false _)). vm_compute. reflexivity.
  - destruct (createSession fullStore "alice" "zed" [Qmake 1 2]) as [[r st']|] eqn:Hcall;
      [|vm_compute in Hcall; discriminate].
    vm_compute in Hcall. injection Hcall as <- <-.
    eexists. split; [reflexivity|]. split; vm_compute; reflexivity.
Qed.

(** ** C4: the sentinel id can be generated *)

(** C4 (the code departs from it).  [Math.random()] may return [0] (or
    any value below [1 / INTEGER_LIMIT]), [generateRandomID] then
    yields [0], and as [0] is not a key of the message log the loop
    accepts it: the session is created with the sentinel id, and
    [sendMessage], [viewMessages] and [getTotalSessionMessages] then
    answer [NotFound] for it. *)
Theorem generated_id_can_be_zero :
  generateRandomID (Qmake 0 1) = 0 ∧
  generateRandomID (Qmake 1 (2 ^ 53)) = 0 ∧
  generateNewID (chatData emptyStore) [Qmake 0 1] = Some 0 ∧
  createSession emptyStore "alice" "bob" [Qmake 0 1] = Some (Ok true, zeroIdStore) ∧
  getSessionID zeroIdStore "alice" "bob" = Ok 0 ∧
  sendMessage zeroIdStore "alice" "bob" "hi" 1 =
    (Err (NotFound not_detected_text), zeroIdStore) ∧
  viewMessages zeroIdStore "alice" "bob" = (Err (NotFound not_found_text), zeroIdStore) ∧
  getTotalSessionMessages zeroIdStore "alice" "bob" = Err (NotFound not_detected_text).
Proof. repeat split; vm_compute; reflexivity. Qed.

(** ** Session ids are never shared

    Every id [createSession] hands out is a fresh key of the message
    log, and a log entry is only deleted together with the one session
    that carries its id.  So in the stores the update methods produce
    from the empty store, each listed session has its log entry and no
    two directory records carry the same id. *)

Lemma scan_no_match (sessions : list Session.t) (target : string) (ID : Z) :
  ¬ Exists (λ session, Session.user session = target) sessions →
  fold_left (scanStep target) sessions ID = ID.
Proof.
  revert ID. induction sessions as [|s rest IH]; intros ID Hno; [done|].
  cbn [fold_left]. unfold scanStep at 2. rewrite decide_False.
  - apply IH. intros Hex. apply Hno. by apply Exists_cons_tl.
  - intros Heq. apply Hno. by apply Exists_cons_hd.
Qed.

Lemma scan_result (sessions : list Session.t) (target : string) (ID : Z) :
  Exists (λ session, Session.user session = target) sessions →
  ∃ session,
    session ∈ sessions ∧ Session.user session = target ∧
    Session.id session = fold_left (scanStep target) sessions ID.
Proof.
  revert ID. induction sessions as [|s rest IH]; intros ID Hex.
  - by apply Exists_nil in Hex.
  - cbn [fold_left].
    destruct (decide (Exists (λ session, Session.user session = target) rest)) as [Hrest|Hrest].
    + destruct (IH (scanStep target ID s) Hrest) as (s' & Hin & Huser & Hid).
      exists s'. split; [by apply list_elem_of_further|done].
    + apply Exists_cons in Hex as [Hs|?]; [|done].
      exists s. split; [apply list_elem_of_here|]. split; [done|].
      rewrite scan_no_match by done. unfold scanStep. by rewrite decide_True.
Qed.

Lemma idsOwned_shrink (st st' : Store) :
  idsOwned st →
  (∀ c l', userChatIDs st' !! c = Some l' →
           ∃ l, userChatIDs st !! c = Some l ∧ l' ⊆ l) →
  (∀ c l' s, userChatIDs st' !! c = Some l' → s ∈ l' →
             chatData st' !! Session.id s = chatData st !! Session.id s) →
  idsOwned st'.
Proof.
  intros [Hlog Hown] Hsub Hkeep. split.
  - intros c l' s Hl' Hs. rewrite (Hkeep _ _ _ Hl' Hs).
    destruct (Hsub _ _ Hl') as (l & Hl & Hincl). eapply Hlog; [done|]. by apply Hincl.
  - intros c1 c2 l1' l2' s1 s2 H1 H2 Hs1 Hs2 Hid.
    destruct (Hsub _ _ H1) as (l1 & Hl1 & Hincl1).
    destruct (Hsub _ _ H2) as (l2 & Hl2 & Hincl2).
    eapply Hown; [exact Hl1|exact Hl2|by apply Hincl1|by apply Hincl2|done].
Qed.

Lemma createSession_idsOwned (st st' : Store) (caller friendPrincipal : string)
    (draws : list Q) (r : Result bool Error) :
  idsOwned st →
  createSession st caller friendPrincipal draws = Some (r, st') →
  idsOwned st'.
Proof.
  intros Hinv Hcall. pose proof Hinv as [Hlog Hown].
  apply createSession_inv in Hcall as (newID & Hfresh%generateNewID_fresh & Hcase).
  assert (Hgrow : ∀ old,
             default [] (userChatIDs st !! caller) = old →
             st' = mkStore (<[caller := old ++ [Session.mk newID friendPrincipal]]>
                              (userChatIDs st))
                           (<[newID := []]> (chatData st)) (unreadMessages st) →
             idsOwned st').
  { intros old Hold ->.
    assert (Hmem : ∀ c l s,
               <[caller := old ++ [Session.mk newID friendPrincipal]]> (userChatIDs st) !! c
               = Some l → s ∈ l →
               (c = caller ∧ s = Session.mk newID friendPrincipal)
               ∨ (∃ l0, userChatIDs st !! c = Some l0 ∧ s ∈ l0)).
    { intros c l s. rewrite lookup_insert. case_decide as Hc.
      - intros [= <-] [Hs|Hs%list_elem_of_singleton]%elem_of_app; [|by left].
        right. subst c. destruct (userChatIDs st !! caller) as [l0|]; cbn in Hold; subst old.
        + by exists l0.
        + by apply elem_of_nil in Hs.
      - intros Hl Hs. right. by exists l. }
    assert (Hne : ∀ c l0 s, userChatIDs st !! c = Some l0 → s ∈ l0 → Session.id s ≠ newID).
    { intros c l0 s Hl0 Hs Heq. destruct (Hlog _ _ _ Hl0 Hs) as [x Hx].
      rewrite Heq, Hfresh in Hx. discriminate. }
    split; cbn [userChatIDs chatData].
    - intros c l s Hl Hs. apply lookup_insert_is_Some.
      destruct (Hmem _ _ _ Hl Hs) as [[_ ->]|(l0 & Hl0 & Hs0)]; [by left|].
      right. split; [|by eapply Hlog]. intros Heq. by eapply Hne.
    - intros c1 c2 l1 l2 s1 s2 H1 H2 Hs1 Hs2 Hid.
      destruct (Hmem _ _ _ H1 Hs1) as [[-> ->]|(l1' & Hl1 & Hs1')];
        destruct (Hmem _ _ _ H2 Hs2) as [[-> ->]|(l2' & Hl2 & Hs2')].
      + done.
      + exfalso. eapply Hne; [exact Hl2|exact Hs2'|]. by rewrite <- Hid.
      + exfalso. eapply Hne; [exact Hl1|exact Hs1'|]. by rewrite Hid.
      + by eapply Hown. }
  destruct (userChatIDs st !! caller) as [old|] eqn:Hdir.
  - destruct Hcase as [(_ & -> & _)|[(_ & -> & _)|(_ & _ & _ & Hst)]]; [done..|].
    by apply (Hgrow old).
  - destruct Hcase as [_ Hst]. by apply (Hgrow []).
Qed.

Lemma removeSession_idsOwned (st : Store) (caller friendPrincipal : string) :
  idsOwned st → idsOwned (removeSession st caller friendPrincipal).2.
Proof.
  intros Hinv. pose proof Hinv as [Hlog Hown].
  destruct (userChatIDs st !! caller) as [userSessions|] eqn:Hdir;
    [|by rewrite removeSession_no_directory].
  destruct (decide (Forall (λ session, Session.user session ≠ friendPrincipal) userSessions))
    as [Hall|Hsome]; [by rewrite (removeSession_no_match _ _ _ _ Hdir Hall)|].
  rewrite (removeSession_match _ _ _ _ Hdir Hsome). cbv zeta. cbn [snd].
  destruct (scan_result userSessions friendPrincipal 0) as (s0 & Hs0 & Huser0 & Hid0).
  { apply not_Forall_Exists in Hsome; [|apply _]. eapply Exists_impl; [exact Hsome|].
    intros s Hs. cbn in Hs. by destruct (decide (Session.user s = friendPrincipal)). }
  rewrite <- Hid0. apply (idsOwned_shrink st); [done| |]; cbn [userChatIDs chatData].
  - intros c l'. rewrite lookup_insert. case_decide as Hc; [|by eexists].
    intros [= <-]. subst c. exists userSessions. split; [done|].
    intros s Hs. by apply list_elem_of_filter in Hs as [_ ?].
  - intros c l' s Hl' Hs. apply lookup_delete_ne. intros Heq.
    rewrite lookup_insert in Hl'. case_decide as Hc.
    + injection Hl' as <-. subst c. apply list_elem_of_filter in Hs as [Hne Hs].
      destruct (Hown _ _ _ _ _ _ Hdir Hdir Hs0 Hs Heq) as [_ ->]. done.
    + destruct (Hown _ _ _ _ _ _ Hdir Hl' Hs0 Hs Heq) as [-> _]. done.
Qed.

Lemma cascade_fold (uc : gmap string (list Session.t)) (caller : string)
    (sessions : list Session.t) (next : nat)
    (cd : gmap Z (list Message.t)) (um : gmap string (list MessageNotification.t)) :
  ∃ next' um',
    fold_left
      (λ '(next, cd, um) session,
         cascade uc caller (Session.user session) (Session.id session) next cd um)
      sessions (next, cd, um)
    = (next', fold_left (λ cd session, delete (Session.id session) cd) sessions cd, um').
Proof.
  revert next cd um. induction sessions as [|s rest IH]; intros next cd um.
  - by eexists _, _.
  - cbn [fold_left].
    destruct (cascade_always uc caller (Session.user s) (Session.id s) next cd um)
      as [next1 ->].
    apply IH.
Qed.

Lemma fold_delete_lookup (sessions : list Session.t) (cd : gmap Z (list Message.t)) (k : Z) :
  k ∉ Session.id <$> sessions →
  fold_left (λ cd session, delete (Session.id session) cd) sessions cd !! k = cd !! k.
Proof.
  revert cd. induction sessions as [|s rest IH]; intros cd Hk; [done|].
  rewrite fmap_cons in Hk. apply not_elem_of_cons in Hk as [Hne Hk].
  cbn [fold_left]. rewrite IH by done. by apply lookup_delete_ne.
Qed.

Lemma removeAllSessions_idsOwned (st : Store) (caller : string) :
  idsOwned st → idsOwned (removeAllSessions st caller).2.
Proof.
  intros Hinv. pose proof Hinv as [Hlog Hown].
  destruct (userChatIDs st !! caller) as [userSessions|] eqn:Hdir;
    [|by rewrite removeAllSessions_no_directory].
  unfold removeAllSessions. rewrite Hdir.
  destruct (cascade_fold (userChatIDs st) caller userSessions 0
              (chatData st) (unreadMessages st)) as (next' & um' & ->).
  cbn [snd]. apply (idsOwned_shrink st); [done| |]; cbn [userChatIDs chatData].
  - intros c l'. rewrite lookup_insert. case_decide as Hc; [|by eexists].
    intros [= <-]. exists userSessions. subst c. split; [done|]. by intros s Hs%elem_of_nil.
  - intros c l' s. rewrite lookup_insert. case_decide as Hc.
    { intros [= <-] Hs. by apply elem_of_nil in Hs. }
    intros Hl' Hs. apply fold_delete_lookup.
    intros (s0 & Hid & Hs0)%list_elem_of_fmap.
    destruct (Hown _ _ _ _ _ _ Hdir Hl' Hs0 Hs) as [-> _]; done.
Qed.

Lemma sendMessage_idsOwned (st : Store) (caller receiver message : string) (now : Z) :
  idsOwned st → idsOwned (sendMessage st caller receiver message now).2.
Proof.
  intros [Hlog Hown].
  assert (Hins : ∀ ID msgs um,
             idsOwned (mkStore (userChatIDs st) (<[ID := msgs]> (chatData st)) um)).
  { intros ID msgs um. split; cbn [userChatIDs chatData]; [|done].
    intros c l s Hl Hs. apply lookup_insert_is_Some'. right. by eapply Hlog. }
  unfold sendMessage.
  destruct (userChatIDs st !! caller) as [userSessions|]; [|done].
  case_decide; [done|].
  destruct (chatData st !! _) as [cur|];
    [destruct (MAX_MSG_PER_SESSION <? length cur)%nat; [done|]|];
    destruct (unreadMessages st !! receiver); apply Hins.
Qed.

Lemma viewMessages_idsOwned (st : Store) (caller friendPrincipal : string) :
  idsOwned st → idsOwned (viewMessages st caller friendPrincipal).2.
Proof.
  intros Hinv. unfold viewMessages.
  destruct (userChatIDs st !! caller) as [userSessions|]; [|done].
  case_decide; [done|]. by destruct (chatData st !! _).
Qed.

Lemma runUpdates_idsOwned (calls : list UpdateCall) (st st' : Store) :
  idsOwned st → runUpdates st calls = Some st' → idsOwned st'.
Proof.
  revert st. induction calls as [|call rest IH]; intros st Hinv Hrun.
  - cbn in Hrun. by simplify_eq.
  - cbn [runUpdates] in Hrun. destruct (runUpdate st call) as [st1|] eqn:Hcall; [|done].
    apply (IH st1); [|done].
    destruct call as [[caller f draws|caller f|caller]|caller receiver message now|caller f];
      cbn in Hcall.
    + destruct (createSession st caller f draws) as [[r st2]|] eqn:Hcreate; [|done].
      cbn in Hcall. simplify_eq. by eapply createSession_idsOwned.
    + simplify_eq. by apply removeSession_idsOwned.
    + simplify_eq. by apply removeAllSessions_idsOwned.
    + simplify_eq. by apply sendMessage_idsOwned.
    + simplify_eq. by apply viewMessages_idsOwned.
Qed.

(** X17.  In a store reached from the empty store, two different
    callers never list a session under the same id, and every listed
    session has its message log entry. *)
Lemma reachable_ids_not_shared (calls : list UpdateCall) (st : Store)
    (A B : string) (la lb : list Session.t) (sa sb : Session.t) :
  runUpdates emptyStore calls = Some st →
  userChatIDs st !! A = Some la → sa ∈ la →
  is_Some (chatData st !! Session.id sa) ∧
  (userChatIDs st !! B = Some lb → sb ∈ lb → A ≠ B → Session.id sa ≠ Session.id sb).
Proof.
  intros Hrun Hla Hsa.
  assert (Hinv : idsOwned st).
  { eapply runUpdates_idsOwned; [|done]. split; intros *; cbn; by rewrite lookup_empty. }
  destruct Hinv as [Hlog Hown]. split; [by eapply Hlog|].
  intros Hlb Hsb Hne Hid. by destruct (Hown _ _ _ _ _ _ Hla Hlb Hsa Hsb Hid).
Qed.

(** * Further properties of the methods *)

(** ** Session id generation *)

(** X1.  For a value [r] of [Math.random()], that is [0 <= r < 1], the
    id [generateRandomID] computes lies in [0, INTEGER_LIMIT): it is a
    natural number below [2^53 - 1] and so fits the [nat64] field. *)
Theorem generateRandomID_range (r : Q) :
  Qle 0 r → Qlt r 1 →
  0 ≤ generateRandomID r < INTEGER_LIMIT.
Proof.
  intros Hlo Hhi. unfold generateRandomID.
  assert (Hpos : Qlt 0 (inject_Z INTEGER_LIMIT)) by reflexivity.
  split.
  - change 0 with (Qfloor 0). apply Qfloor_resp_le.
    apply Qmult_le_0_compat; [done|]. by apply Qlt_le_weak.
  - rewrite Zlt_Qlt. eapply Qle_lt_trans; [apply Qfloor_le|].
    apply Qlt_le_trans with (Qmult 1 (inject_Z INTEGER_LIMIT)).
    + by apply Qmult_lt_compat_r.
    + rewrite Qmult_1_l. apply Qle_refl.
Qed.

Lemma generateRandomID_range_witness :
  Qle 0 (Qmake 1 2) ∧ Qlt (Qmake 1 2) 1 ∧
  0 ≤ generateRandomID (Qmake 1 2) < INTEGER_LIMIT.
Proof.
  assert (Hlo : Qle 0 (Qmake 1 2)) by (vm_compute; discriminate).
  assert (Hhi : Qlt (Qmake 1 2) 1) by reflexivity.
  split; [exact Hlo|]. split; [exact Hhi|].
  exact (generateRandomID_range (Qmake 1 2) Hlo Hhi).
Defined.

(** X2.  The generate-and-check loop returns the id of the first draw
    that is not yet a key of the message log, having skipped exactly the
    draws before it, which all collide; it fails to return on the draws
    supplied exactly when every one of them collides. *)
Theorem generateNewID_first_fresh (cd : gmap Z (list Message.t)) (draws : list Q) :
  (∀ newID,
      generateNewID cd draws = Some newID ↔
      ∃ skipped r rest,
        draws = skipped ++ r :: rest ∧ allCollide cd skipped ∧
        cd !! generateRandomID r = None ∧ newID = generateRandomID r)
  ∧ (generateNewID cd draws = None ↔ allCollide cd draws).
Proof.
  unfold allCollide. induction draws as [|q rest [IHs IHn]].
  - split.
    + intros newID. split; [done|]. intros (skipped & r & rest & Heq & _).
      by destruct skipped.
    + split; [by constructor|done].
  - cbn [generateNewID]. destruct (decide (is_Some (cd !! generateRandomID q))) as [Hkey|Hkey].
    + split.
      * intros newID. rewrite IHs. split.
        -- intros (skipped & r & rest' & -> & Hall & Hfresh & ->).
           exists (q :: skipped), r, rest'. repeat split; [|done..]. by constructor.
        -- intros (skipped & r & rest' & Heq & Hall & Hfresh & ->).
           destruct skipped as [|q' skipped]; cbn in Heq; simplify_eq.
           ++ rewrite Hfresh in Hkey. by destruct Hkey.
           ++ apply Forall_cons in Hall as [_ Hall]. by exists skipped, r, rest'.
      * rewrite IHn, Forall_cons. split; [by split|by intros [_ ?]].
    + apply eq_None_not_Some in Hkey. split.
      * intros newID. split.
        -- intros [= <-]. by exists [], q, rest.
        -- intros (skipped & r & rest' & Heq & Hall & Hfresh & ->).
           destruct skipped as [|q' skipped]; cbn in Heq; simplify_eq; [done|].
           apply Forall_cons in Hall as [[x Hx] _]. rewrite Hkey in Hx. discriminate.
      * split; [done|]. intros [[x Hx] _]%Forall_cons. rewrite Hkey in Hx. discriminate.
Qed.

(** ** [createSession] *)

Lemma createSession_ok_inv (st st' : Store) (caller friendPrincipal : string)
    (draws : list Q) :
  createSession st caller friendPrincipal draws = Some (Ok true, st') →
  ∃ newID,
    generateNewID (chatData st) draws = Some newID ∧
    chatData st !! newID = None ∧
    (length (default [] (userChatIDs st !! caller)) ≤ MAXIMUM_SESSIONS)%nat ∧
    ¬ Exists (λ session, Session.user session = friendPrincipal)
        (default [] (userChatIDs st !! caller)) ∧
    st' = mkStore
            (<[caller := default [] (userChatIDs st !! caller)
                         ++ [Session.mk newID friendPrincipal]]> (userChatIDs st))
            (<[newID := []]> (chatData st)) (unreadMessages st).
Proof.
  intros Hcall. apply createSession_inv in Hcall as (newID & Hgen & Hcase).
  exists newID. split; [done|]. split; [by eapply generateNewID_fresh|].
  destruct (userChatIDs st !! caller) as [old|]; cbn [default].
  - by destruct Hcase as [(? & _)|[(? & _)|(_ & ? & ? & ->)]].
  - destruct Hcase as [_ ->]. split; [cbn; unfold MAXIMUM_SESSIONS; lia|].
    split; [by intros ?%Exists_nil|done].
Qed.

(** X3.  A successful [createSession] appends the new session at the
    end of the caller's list (a list of its own when the caller had
    none), creates an empty log under an id that was not a key before,
    and changes nothing else: the other callers' entries, every
    existing log and all notification queues are as they were. *)
Theorem createSession_frame (st st' : Store) (caller friendPrincipal : string)
    (draws : list Q) :
  createSession st caller friendPrincipal draws = Some (Ok true, st') →
  ∃ newID,
    generateNewID (chatData st) draws = Some newID ∧
    chatData st !! newID = None ∧
    userChatIDs st' !! caller =
      Some (default [] (userChatIDs st !! caller) ++ [Session.mk newID friendPrincipal]) ∧
    (∀ other, other ≠ caller → userChatIDs st' !! other = userChatIDs st !! other) ∧
    chatData st' !! newID = Some [] ∧
    (∀ k, k ≠ newID → chatData st' !! k = chatData st !! k) ∧
    unreadMessages st' = unreadMessages st.
Proof.
  intros (newID & Hgen & Hfresh & _ & _ & ->)%createSession_ok_inv.
  exists newID. cbn [userChatIDs chatData unreadMessages].
  split; [done|]. split; [done|].
  split; [apply lookup_insert_eq|]. split; [intros other Hne; by apply lookup_insert_ne|].
  split; [apply lookup_insert_eq|]. split; [|done].
  intros k Hne. by apply lookup_insert_ne.
Qed.

Lemma createSession_frame_witness :
  let st := mkStore {[ "alice"%string := [Session.mk 7 "bob"] ]}
                    {[ 7 := [Message.mk "alice" "bob" "hi" 1] ]}
                    {[ "bob"%string := [MessageNotification.mk "alice" 7 1] ]} in
  ∃ st', createSession st "alice" "carol" [Qmake 1 2] = Some (Ok true, st') ∧
         userChatIDs st' !! "alice"%string =
           Some [Session.mk 7 "bob"; Session.mk 4503599627370495 "carol"] ∧
         chatData st' !! 7 = Some [Message.mk "alice" "bob" "hi" 1] ∧
         unreadMessages st' = unreadMessages st.
Proof.
  intros st.
  destruct (createSession st "alice" "carol" [Qmake 1 2]) as [[r st']|] eqn:Hcall;
    [|vm_compute in Hcall; discriminate].
  assert (Hr : r = Ok true) by (vm_compute in Hcall; by injection Hcall as <- _).
  subst r. exists st'. split; [reflexivity|].
  destruct (createSession_frame st st' "alice" "carol" _ Hcall)
    as (newID & Hgen & _ & Hown & _ & _ & Hlogs & Hum).
  assert (HnewID : newID = 4503599627370495) by (vm_compute in Hgen; by injection Hgen).
  subst newID. split; [exact Hown|]. split; [|exact Hum].
  rewrite Hlogs by lia. reflexivity.
Defined.

Lemma createSession_result (st : Store) (caller friendPrincipal : string) (draws : list Q) :
  createSession st caller friendPrincipal draws = None
  ∨ (∃ st', createSession st caller friendPrincipal draws = Some (Ok true, st'))
  ∨ (∃ e, createSession st caller friendPrincipal draws = Some (Err e, st)).
Proof.
  destruct (createSession st caller friendPrincipal draws) as [[r st']|] eqn:Hcall; [|by left].
  right. apply createSession_inv in Hcall as (newID & _ & Hcase).
  destruct (userChatIDs st !! caller) as [old|].
  - destruct Hcase as [(-> & -> & _)|[(-> & -> & _)|(-> & _)]]; eauto.
  - destruct Hcase as [-> _]. eauto.
Qed.

Lemma removeSession_result (st : Store) (caller friendPrincipal : string) :
  (∃ st', removeSession st caller friendPrincipal = (Ok true, st'))
  ∨ (∃ e, removeSession st caller friendPrincipal = (Err e, st)).
Proof.
  destruct (userChatIDs st !! caller) as [userSessions|] eqn:Hdir.
  - destruct (decide (Forall (λ session, Session.user session ≠ friendPrincipal) userSessions))
      as [Hall|Hsome].
    + right. rewrite (removeSession_no_match _ _ _ _ Hdir Hall). eauto.
    + left. rewrite (removeSession_match _ _ _ _ Hdir Hsome). eauto.
  - right. rewrite removeSession_no_directory by done. eauto.
Qed.

Lemma removeAllSessions_result (st : Store) (caller : string) :
  (∃ st', removeAllSessions st caller = (Ok true, st'))
  ∨ (∃ e, removeAllSessions st caller = (Err e, st)).
Proof.
  destruct (userChatIDs st !! caller) as [userSessions|] eqn:Hdir.
  - left. unfold removeAllSessions. rewrite Hdir.
    destruct (fold_left _ userSessions _) as [[next cd] um]. eauto.
  - right. rewrite removeAllSessions_no_directory by done. eauto.
Qed.

Lemma sendMessage_result (st : Store) (caller receiver message : string) (now : Z) :
  (∃ st', sendMessage st caller receiver message now = (Ok true, st'))
  ∨ (∃ e, sendMessage st caller receiver message now = (Err e, st)).
Proof.
  unfold sendMessage.
  destruct (userChatIDs st !! caller) as [userSessions|]; [|eauto].
  case_decide; [eauto|].
  destruct (chatData st !! _) as [cur|];
    [destruct (MAX_MSG_PER_SESSION <? length cur)%nat|]; eauto.
Qed.

Lemma viewMessages_result (st : Store) (caller friendPrincipal : string) :
  (∃ msgs st', viewMessages st caller friendPrincipal = (Ok msgs, st'))
  ∨ (∃ e, viewMessages st caller friendPrincipal = (Err e, st)).
Proof.
  unfold viewMessages.
  destruct (userChatIDs st !! caller) as [userSessions|]; [|eauto].
  case_decide; [eauto|]. destruct (chatData st !! _) as [cur|]; eauto.
Qed.

(** X4.  Every method that writes to the store either succeeds or
    returns an error together with the store exactly as it was: a
    rejected call has no partial effect.  ([createSession] may also not
    return, when every draw supplied collides.) *)
Theorem failed_update_keeps_store (st : Store) :
  (∀ caller friendPrincipal draws,
      createSession st caller friendPrincipal draws = None
      ∨ (∃ st', createSession st caller friendPrincipal draws = Some (Ok true, st'))
      ∨ (∃ e, createSession st caller friendPrincipal draws = Some (Err e, st)))
  ∧ (∀ caller friendPrincipal,
        (∃ st', removeSession st caller friendPrincipal = (Ok true, st'))
        ∨ (∃ e, removeSession st caller friendPrincipal = (Err e, st)))
  ∧ (∀ caller,
        (∃ st', removeAllSessions st caller = (Ok true, st'))
        ∨ (∃ e, removeAllSessions st caller = (Err e, st)))
  ∧ (∀ caller receiver message now,
        (∃ st', sendMessage st caller receiver message now = (Ok true, st'))
        ∨ (∃ e, sendMessage st caller receiver message now = (Err e, st)))
  ∧ (∀ caller friendPrincipal,
        (∃ msgs st', viewMessages st caller friendPrincipal = (Ok msgs, st'))
        ∨ (∃ e, viewMessages st caller friendPrincipal = (Err e, st))).
Proof.
  repeat apply conj.
  - apply createSession_result.
  - apply removeSession_result.
  - apply removeAllSessions_result.
  - apply sendMessage_result.
  - apply viewMessages_result.
Qed.

(** X5.  Right after a successful [createSession] with a counterparty,
    a second [createSession] of the same caller with the same
    counterparty never succeeds and changes nothing: it is rejected
    with [DuplicateAttempt], or with [MaxSessionsReached] when the first
    call was made with exactly [MAXIMUM_SESSIONS] sessions (the size
    test comes before the duplicate test). *)
Theorem createSession_twice (st st1 st2 : Store) (caller friendPrincipal : string)
    (draws draws' : list Q) (r : Result bool Error) :
  createSession st caller friendPrincipal draws = Some (Ok true, st1) →
  createSession st1 caller friendPrincipal draws' = Some (r, st2) →
  st2 = st1 ∧
  (r = Err (DuplicateAttempt duplicate_text) ∨ r = Err (MaxSessionsReached max_sessions_text)) ∧
  (r = Err (MaxSessionsReached max_sessions_text) ↔
   length (default [] (userChatIDs st !! caller)) = MAXIMUM_SESSIONS).
Proof.
  intros (newID & _ & _ & Hlen & _ & ->)%createSession_ok_inv Hsecond.
  apply createSession_inv in Hsecond as (newID' & _ & Hcase).
  cbn [userChatIDs] in Hcase. rewrite lookup_insert_eq in Hcase.
  rewrite length_app in Hcase. cbn [length] in Hcase.
  destruct Hcase as [(-> & -> & Hmax)|[(-> & -> & Hle & _)|(_ & _ & Hfresh & _)]].
  - split; [done|]. split; [by right|]. split; [lia|done].
  - split; [done|]. split; [by left|]. split; [done|lia].
  - exfalso. apply Hfresh. apply Exists_app. right. by apply Exists_cons_hd.
Qed.

Lemma createSession_twice_witness :
  let st1 := mkStore {[ "alice"%string := [Session.mk 2251799813685247 "bob"] ]}
                     {[ 2251799813685247 := [] ]} ∅ in
  createSession emptyStore "alice" "bob" [Qmake 1 4] = Some (Ok true, st1) ∧
  createSession st1 "alice" "bob" [Qmake 1 2] =
    Some (Err (DuplicateAttempt duplicate_text), st1).
Proof.
  intros st1.
  assert (Hfirst : createSession emptyStore "alice" "bob" [Qmake 1 4] = Some (Ok true, st1))
    by (vm_compute; reflexivity).
  split; [exact Hfirst|].
  destruct (createSession st1 "alice" "bob" [Qmake 1 2]) as [[r st2]|] eqn:Hsecond;
    [|vm_compute in Hsecond; discriminate].
  destruct (createSession_twice _ _ _ _ _ _ _ _ Hfirst Hsecond) as (-> & [->| ->] & Hmax);
    [reflexivity|].
  exfalso. assert (Hlen : length (default [] (userChatIDs emptyStore !! "alice"%string))
                          = MAXIMUM_SESSIONS) by (by apply Hmax).
  vm_compute in Hlen. discriminate.
Defined.

Lemma scan_app_match (sessions : list Session.t) (target : string) (sid ID : Z) :
  fold_left (scanStep target) (sessions ++ [Session.mk sid target]) ID = sid.
Proof. rewrite fold_left_app. cbn. unfold scanStep. cbn. by rewrite decide_True. Qed.

(** X6.  [removeSession] undoes a successful [createSession]: called
    right after it for the same counterparty it returns [Ok], the
    message log is again exactly what it was before the create, and so
    is the directory, except that a caller who had no entry before now
    has an empty one. *)
Theorem createSession_then_removeSession (st st1 : Store)
    (caller friendPrincipal : string) (draws : list Q) :
  createSession st caller friendPrincipal draws = Some (Ok true, st1) →
  ∃ st2,
    removeSession st1 caller friendPrincipal = (Ok true, st2) ∧
    chatData st2 = chatData st ∧
    userChatIDs st2 = <[caller := default [] (userChatIDs st !! caller)]> (userChatIDs st) ∧
    (is_Some (userChatIDs st !! caller) → userChatIDs st2 = userChatIDs st).
Proof.
  intros (newID & _ & Hfresh & _ & Hold & ->)%createSession_ok_inv.
  set (old := default [] (userChatIDs st !! caller)) in *.
  set (st1 := mkStore _ _ _).
  assert (Hdir : userChatIDs st1 !! caller = Some (old ++ [Session.mk newID friendPrincipal]))
    by apply lookup_insert_eq.
  assert (Hsome : ¬ Forall (λ session, Session.user session ≠ friendPrincipal)
                    (old ++ [Session.mk newID friendPrincipal])).
  { intros [_ Hlast]%Forall_app. inversion Hlast as [|? ? Hx _]. by apply Hx. }
  rewrite (removeSession_match _ _ _ _ Hdir Hsome). cbv zeta.
  eexists. split; [done|]. subst st1. cbn [chatData userChatIDs].
  rewrite scan_app_match, filter_app, filter_cons_False, filter_nil, app_nil_r
    by (cbn; by intros ?).
  rewrite filter_all by (by apply not_Exists_Forall in Hold; [|apply _]).
  rewrite delete_insert_eq, delete_id, insert_insert_eq by done.
  repeat split. intros [l Hl]. unfold old. rewrite Hl. cbn. by apply insert_id.
Qed.

Lemma createSession_then_removeSession_witness :
  let st := mkStore {[ "alice"%string := [Session.mk 7 "bob"] ]}
                    {[ 7 := [Message.mk "alice" "bob" "hi" 1] ]} ∅ in
  ∃ st1 st2,
    createSession st "alice" "carol" [Qmake 1 2] = Some (Ok true, st1) ∧
    removeSession st1 "alice" "carol" = (Ok true, st2) ∧
    chatData st2 = chatData st ∧ userChatIDs st2 = userChatIDs st.
Proof.
  intros st.
  destruct (createSession st "alice" "carol" [Qmake 1 2]) as [[r st1]|] eqn:Hcall;
    [|vm_compute in Hcall; discriminate].
  assert (Hr : r = Ok true) by (vm_compute in Hcall; by injection Hcall as <- _).
  subst r.
  destruct (createSession_then_removeSession st st1 "alice" "carol" _ Hcall)
    as (st2 & Hremove & Hcd & _ & Huc).
  exists st1, st2. split; [reflexivity|]. split; [exact Hremove|]. split; [exact Hcd|].
  apply Huc. vm_compute. eauto.
Defined.

(** ** [removeSession] and [removeAllSessions] *)

Lemma removeSession_ok_inv (st st' : Store) (caller friendPrincipal : string) :
  removeSession st caller friendPrincipal = (Ok true, st') →
  ∃ userSessions removed,
    userChatIDs st !! caller = Some userSessions ∧
    removed ∈ userSessions ∧ Session.user removed = friendPrincipal ∧
    let uc :=
      <[caller := filter (λ session, Session.user session ≠ friendPrincipal) userSessions]>
        (userChatIDs st) in
    st' = mkStore uc (delete (Session.id removed) (chatData st))
            match uc !! friendPrincipal with
            | None => unreadMessages st
            | Some _ =>
                purgeNotifications caller (Session.id removed)
                  (purgeNotifications friendPrincipal (Session.id removed)
                     (unreadMessages st))
            end.
Proof.
  intros Hcall.
  destruct (userChatIDs st !! caller) as [userSessions|] eqn:Hdir;
    [|by rewrite removeSession_no_directory in Hcall].
  destruct (decide (Forall (λ session, Session.user session ≠ friendPrincipal) userSessions))
    as [Hall|Hsome]; [by rewrite (removeSession_no_match _ _ _ _ Hdir Hall) in Hcall|].
  rewrite (removeSession_match _ _ _ _ Hdir Hsome) in Hcall. cbv zeta in Hcall.
  destruct (scan_result userSessions friendPrincipal 0) as (removed & Hin & Huser & Hid).
  { apply not_Forall_Exists in Hsome; [|apply _]. eapply Exists_impl; [exact Hsome|].
    intros s Hs. cbn in Hs. by destruct (decide (Session.user s = friendPrincipal)). }
  rewrite <- Hid in Hcall. injection Hcall as <-. by exists userSessions, removed.
Qed.

(** X7.  A successful [removeSession] drops from the caller's list
    every session with the counterparty and keeps the others in order,
    leaves the other callers' entries alone, deletes the log of the
    removed session and no other log; and when the counterparty has no
    directory entry, it leaves every notification queue untouched, the
    caller's unread notifications of that session included. *)
Theorem removeSession_frame (st st' : Store) (caller friendPrincipal : string) :
  removeSession st caller friendPrincipal = (Ok true, st') →
  ∃ userSessions removed,
    userChatIDs st !! caller = Some userSessions ∧
    removed ∈ userSessions ∧ Session.user removed = friendPrincipal ∧
    userChatIDs st' !! caller =
      Some (filter (λ session, Session.user session ≠ friendPrincipal) userSessions) ∧
    (∀ other, other ≠ caller → userChatIDs st' !! other = userChatIDs st !! other) ∧
    chatData st' !! Session.id removed = None ∧
    (∀ k, k ≠ Session.id removed → chatData st' !! k = chatData st !! k) ∧
    (friendPrincipal ≠ caller → userChatIDs st !! friendPrincipal = None →
     unreadMessages st' = unreadMessages st) ∧
    (is_Some (userChatIDs st !! friendPrincipal) →
     unreadMessages st' =
       purgeNotifications caller (Session.id removed)
         (purgeNotifications friendPrincipal (Session.id removed) (unreadMessages st))).
Proof.
  intros (userSessions & removed & Hdir & Hin & Huser & ->)%removeSession_ok_inv.
  exists userSessions, removed. cbn [userChatIDs chatData unreadMessages].
  split; [done|]. split; [done|]. split; [done|].
  split; [apply lookup_insert_eq|]. split; [intros other Hne; by apply lookup_insert_ne|].
  split; [apply lookup_delete_eq|]. split; [intros k Hne; by apply lookup_delete_ne|].
  split.
  - intros Hne Hnone. by rewrite lookup_insert_ne, Hnone.
  - intros [l Hl]. rewrite lookup_insert. case_decide; [done|]. by rewrite Hl.
Qed.

Lemma removeSession_frame_witness :
  let st := mkStore {[ "alice"%string := [Session.mk 7 "bob"; Session.mk 9 "carol"] ]}
                    {[ 7 := [Message.mk "alice" "bob" "hi" 1]; 9 := [] ]}
                    {[ "alice"%string := [MessageNotification.mk "bob" 7 2] ]} in
  ∃ st',
    removeSession st "alice" "bob" = (Ok true, st') ∧
    userChatIDs st' !! "alice"%string = Some [Session.mk 9 "carol"] ∧
    chatData st' !! 7 = None ∧ chatData st' !! 9 = Some [] ∧
    unreadMessages st' = unreadMessages st.
Proof.
  intros st.
  destruct (removeSession st "alice" "bob") as [r st'] eqn:Hcall.
  assert (Hr : r = Ok true) by (vm_compute in Hcall; by injection Hcall as <- _).
  subst r. exists st'. split; [reflexivity|].
  destruct (removeSession_frame st st' "alice" "bob" Hcall)
    as (userSessions & removed & Hdir & Hin & Huser & Hown & _ & Hgone & Hlogs & Hum & _).
  assert (HuserSessions : userSessions = [Session.mk 7 "bob"; Session.mk 9 "carol"])
    by (vm_compute in Hdir; by injection Hdir).
  subst userSessions.
  assert (Hremoved : removed = Session.mk 7 "bob").
  { apply elem_of_cons in Hin as [->|Hin]; [done|].
    apply list_elem_of_singleton in Hin. subst removed. discriminate. }
  subst removed. split; [rewrite Hown; vm_compute; reflexivity|].
  split; [exact Hgone|]. split; [rewrite Hlogs by (cbn; lia); reflexivity|].
  apply Hum; [discriminate|reflexivity].
Defined.

Lemma fold_delete_lookup_in (sessions : list Session.t) (cd : gmap Z (list Message.t)) (k : Z) :
  k ∈ Session.id <$> sessions →
  fold_left (λ cd session, delete (Session.id session) cd) sessions cd !! k = None.
Proof.
  revert cd. induction sessions as [|s rest IH]; intros cd Hk.
  - by apply elem_of_nil in Hk.
  - cbn [fold_left]. destruct (decide (k ∈ Session.id <$> rest)) as [Hrest|Hrest].
    + by apply IH.
    + rewrite fold_delete_lookup by done. rewrite fmap_cons in Hk.
      apply elem_of_cons in Hk as [->|?]; [apply lookup_delete_eq|done].
Qed.

Lemma removeAllSessions_ok (st : Store) (caller : string) (userSessions : list Session.t) :
  userChatIDs st !! caller = Some userSessions →
  ∃ um',
    removeAllSessions st caller =
    (Ok true,
     mkStore (<[caller := []]> (userChatIDs st))
             (fold_left (λ cd session, delete (Session.id session) cd) userSessions
                        (chatData st))
             um').
Proof.
  intros Hdir. unfold removeAllSessions. rewrite Hdir.
  destruct (cascade_fold (userChatIDs st) caller userSessions 0
              (chatData st) (unreadMessages st)) as (next' & um' & ->).
  by exists um'.
Qed.

(** X8.  For a caller with a directory entry, [removeAllSessions]
    returns [Ok], leaves the caller with the empty list (so
    [getTotalSessions] is [0]) and every other caller's entry alone,
    deletes the log of each session the caller held and no other log. *)
Theorem removeAllSessions_effect (st : Store) (caller : string)
    (userSessions : list Session.t) :
  userChatIDs st !! caller = Some userSessions →
  ∃ st',
    removeAllSessions st caller = (Ok true, st') ∧
    userChatIDs st' = <[caller := []]> (userChatIDs st) ∧
    getTotalSessions st' caller = 0 ∧
    (∀ session, session ∈ userSessions → chatData st' !! Session.id session = None) ∧
    (∀ k, k ∉ Session.id <$> userSessions → chatData st' !! k = chatData st !! k).
Proof.
  intros Hdir. destruct (removeAllSessions_ok _ _ _ Hdir) as [um' ->].
  eexists. split; [done|]. cbn [userChatIDs chatData]. split; [done|]. split.
  - unfold getTotalSessions. cbn [userChatIDs]. by rewrite lookup_insert_eq.
  - split.
    + intros s Hs. apply fold_delete_lookup_in. by apply list_elem_of_fmap_2.
    + intros k Hk. by apply fold_delete_lookup.
Qed.

Lemma removeAllSessions_effect_witness :
  let st := mkStore {[ "alice"%string := [Session.mk 7 "bob"; Session.mk 9 "carol"];
                       "dave"%string := [Session.mk 11 "alice"] ]}
                    {[ 7 := [Message.mk "alice" "bob" "hi" 1]; 9 := []; 11 := [] ]} ∅ in
  ∃ st',
    removeAllSessions st "alice" = (Ok true, st') ∧
    getAllSessions st' "alice" = Ok [] ∧ getTotalSessions st' "alice" = 0 ∧
    chatData st' !! 7 = None ∧ chatData st' !! 9 = None ∧ chatData st' !! 11 = Some [].
Proof.
  intros st.
  assert (Hdir : userChatIDs st !! "alice"%string
                 = Some [Session.mk 7 "bob"; Session.mk 9 "carol"]) by reflexivity.
  destruct (removeAllSessions_effect st "alice" _ Hdir)
    as (st' & Hcall & Huc & Htotal & Hgone & Hkept).
  exists st'. split; [exact Hcall|]. split.
  { unfold getAllSessions. rewrite Huc. reflexivity. }
  split; [exact Htotal|]. split; [|split].
  - apply (Hgone (Session.mk 7 "bob")). apply list_elem_of_here.
  - apply (Hgone (Session.mk 9 "carol")). apply list_elem_of_further, list_elem_of_here.
  - rewrite Hkept; [reflexivity|]. cbn. intros Hin.
    apply elem_of_cons in Hin as [?|Hin]; [done|].
    apply list_elem_of_singleton in Hin. done.
Defined.

Lemma firstSessionID_none (sessions : list Session.t) (target : string) :
  Forall (λ session, Session.user session ≠ target) sessions →
  firstSessionID sessions target = None.
Proof.
  induction 1 as [|s rest Hs _ IH]; [done|]. cbn. by rewrite decide_False.
Qed.

(** X14.  Once a caller with a directory entry has called
    [removeSession] for a counterparty, whatever that call returned,
    [getSessionID] for that counterparty answers [NotFound]. *)
Theorem removeSession_then_getSessionID (st : Store) (caller friendPrincipal : string) :
  is_Some (userChatIDs st !! caller) →
  getSessionID (removeSession st caller friendPrincipal).2 caller friendPrincipal
  = Err (NotFound not_found_query_text).
Proof.
  intros [userSessions Hdir]. unfold getSessionID.
  rewrite (removeSession_directory _ _ _ _ Hdir), lookup_insert_eq.
  rewrite firstSessionID_none; [done|].
  apply Forall_forall. intros s Hs. by apply list_elem_of_filter in Hs as [? _].
Qed.

Lemma removeSession_then_getSessionID_witness :
  let st := mkStore {[ "alice"%string := [Session.mk 7 "bob"; Session.mk 9 "carol"] ]}
                    {[ 7 := []; 9 := [] ]} ∅ in
  is_Some (userChatIDs st !! "alice"%string) ∧
  getSessionID st "alice" "bob" = Ok 7 ∧
  getSessionID (removeSession st "alice" "bob").2 "alice" "bob"
  = Err (NotFound not_found_query_text).
Proof.
  intros st.
  assert (Hdir : is_Some (userChatIDs st !! "alice"%string)) by (vm_compute; eauto).
  split; [exact Hdir|]. split; [reflexivity|].
  exact (removeSession_then_getSessionID st "alice" "bob" Hdir).
Defined.

(** ** [sendMessage] and [viewMessages] *)

Lemma sendMessage_ok_inv (st st' : Store) (caller receiver message : string) (now : Z) :
  sendMessage st caller receiver message now = (Ok true, st') →
  ∃ userSessions,
    userChatIDs st !! caller = Some userSessions ∧
    scanSessionID userSessions receiver ≠ 0 ∧
    (length (default [] (chatData st !! scanSessionID userSessions receiver))
     ≤ MAX_MSG_PER_SESSION)%nat ∧
    st' = mkStore (userChatIDs st)
            (<[scanSessionID userSessions receiver :=
                 default [] (chatData st !! scanSessionID userSessions receiver)
                 ++ [Message.mk caller receiver message now]]> (chatData st))
            (enqueued receiver
               (MessageNotification.mk caller (scanSessionID userSessions receiver) now)
               (unreadMessages st)).
Proof.
  unfold sendMessage, enqueued.
  destruct (userChatIDs st !! caller) as [userSessions|]; [|done].
  case_decide as Hz; [done|]. intros Hcall. exists userSessions. split; [done|]. split; [done|].
  destruct (chatData st !! scanSessionID userSessions receiver) as [cur|]; cbn [default].
  - destruct (MAX_MSG_PER_SESSION <? length cur)%nat eqn:Hmax; [done|].
    apply Nat.ltb_ge in Hmax. split; [done|].
    destruct (unreadMessages st !! receiver); by simplify_eq.
  - split; [cbn; lia|]. destruct (unreadMessages st !! receiver); by simplify_eq.
Qed.

Lemma scan_nonzero_session (sessions : list Session.t) (target : string) :
  scanSessionID sessions target ≠ 0 →
  ∃ session,
    session ∈ sessions ∧ Session.user session = target ∧
    Session.id session = scanSessionID sessions target.
Proof.
  intros Hnz. rewrite scanSessionID_fold in *. apply scan_result.
  destruct (decide (Exists (λ session, Session.user session = target) sessions)); [done|].
  by rewrite scan_no_match in Hnz.
Qed.

(** X9.  A successful [sendMessage] uses a session of the caller with
    the receiver whose id is not [0]; it appends the message at the end
    of that session's log (creating the log when absent) and one
    notification carrying that id at the end of the receiver's queue,
    and leaves the directory, every other log and every other queue as
    they were. *)
Theorem sendMessage_effect (st st' : Store) (caller receiver message : string) (now : Z) :
  sendMessage st caller receiver message now = (Ok true, st') →
  ∃ userSessions session,
    userChatIDs st !! caller = Some userSessions ∧ session ∈ userSessions ∧
    Session.user session = receiver ∧ Session.id session ≠ 0 ∧
    userChatIDs st' = userChatIDs st ∧
    chatData st' !! Session.id session =
      Some (default [] (chatData st !! Session.id session)
            ++ [Message.mk caller receiver message now]) ∧
    (∀ k, k ≠ Session.id session → chatData st' !! k = chatData st !! k) ∧
    viewNotifications st' receiver =
      viewNotifications st receiver
      ++ [MessageNotification.mk caller (Session.id session) now] ∧
    (∀ other, other ≠ receiver → unreadMessages st' !! other = unreadMessages st !! other).
Proof.
  intros (userSessions & Hdir & Hnz & _ & ->)%sendMessage_ok_inv.
  destruct (scan_nonzero_session _ _ Hnz) as (session & Hin & Huser & Hid).
  rewrite <- Hid in *. exists userSessions, session.
  cbn [userChatIDs chatData unreadMessages].
  split; [done|]. split; [done|]. split; [done|]. split; [done|]. split; [done|].
  split; [apply lookup_insert_eq|]. split; [intros k Hne; by apply lookup_insert_ne|].
  unfold viewNotifications, enqueued. cbn [unreadMessages]. split.
  - rewrite lookup_insert_eq. by destruct (unreadMessages st !! receiver).
  - intros other Hne. by apply lookup_insert_ne.
Qed.

Lemma sendMessage_effect_witness :
  let st := mkStore {[ "alice"%string := [Session.mk 7 "bob"] ]}
                    {[ 7 := [Message.mk "alice" "bob" "hi" 1] ]}
                    {[ "bob"%string := [MessageNotification.mk "alice" 7 1] ]} in
  ∃ st',
    sendMessage st "alice" "bob" "again" 2 = (Ok true, st') ∧
    chatData st' !! 7 =
      Some [Message.mk "alice" "bob" "hi" 1; Message.mk "alice" "bob" "again" 2] ∧
    viewNotifications st' "bob" =
      [MessageNotification.mk "alice" 7 1; MessageNotification.mk "alice" 7 2].
Proof.
  intros st.
  destruct (sendMessage st "alice" "bob" "again" 2) as [r st'] eqn:Hcall.
  assert (Hr : r = Ok true) by (vm_compute in Hcall; by injection Hcall as <- _).
  subst r. exists st'. split; [reflexivity|].
  destruct (sendMessage_effect st st' "alice" "bob" "again" 2 Hcall)
    as (userSessions & session & Hdir & Hin & _ & _ & _ & Hlog & _ & Hqueue & _).
  assert (HuserSessions : userSessions = [Session.mk 7 "bob"])
    by (vm_compute in Hdir; by injection Hdir).
  subst userSessions. apply list_elem_of_singleton in Hin. subst session.
  split; [exact Hlog|exact Hqueue].
Defined.

(** X10.  After a successful [sendMessage] the sender's [viewMessages]
    for that receiver returns what it returned before the send (nothing,
    when it failed for want of a log) followed by the new message. *)
Theorem sendMessage_then_viewMessages (st st' : Store)
    (caller receiver message : string) (now : Z) :
  sendMessage st caller receiver message now = (Ok true, st') →
  (viewMessages st' caller receiver).1 =
  Ok (match (viewMessages st caller receiver).1 with
      | Ok before => before
      | Err _ => []
      end ++ [Message.mk caller receiver message now]).
Proof.
  intros (userSessions & Hdir & Hnz & _ & ->)%sendMessage_ok_inv.
  unfold viewMessages. cbn [userChatIDs chatData].
  rewrite Hdir, lookup_insert_eq. repeat case_decide; try done.
  by destruct (chatData st !! scanSessionID userSessions receiver).
Qed.

Lemma sendMessage_then_viewMessages_witness :
  let st := mkStore {[ "alice"%string := [Session.mk 7 "bob"] ]}
                    {[ 7 := [Message.mk "alice" "bob" "hi" 1] ]} ∅ in
  ∃ st',
    sendMessage st "alice" "bob" "again" 2 = (Ok true, st') ∧
    (viewMessages st' "alice" "bob").1 =
      Ok [Message.mk "alice" "bob" "hi" 1; Message.mk "alice" "bob" "again" 2].
Proof.
  intros st.
  destruct (sendMessage st "alice" "bob" "again" 2) as [r st'] eqn:Hcall.
  assert (Hr : r = Ok true) by (vm_compute in Hcall; by injection Hcall as <- _).
  subst r. exists st'. split; [reflexivity|].
  rewrite (sendMessage_then_viewMessages st st' "alice" "bob" "again" 2 Hcall).
  reflexivity.
Defined.

Lemma purgeNotifications_idemp (who : string) (sid : Z)
    (um : gmap string (list MessageNotification.t)) :
  purgeNotifications who sid (purgeNotifications who sid um) = purgeNotifications who sid um.
Proof.
  unfold purgeNotifications. destruct (um !! who) as [ns|] eqn:Hq.
  - rewrite lookup_insert_eq, insert_insert_eq. f_equal. apply filter_all.
    apply Forall_forall. intros n Hn. by apply list_elem_of_filter in Hn as [? _].
  - by rewrite Hq.
Qed.

(** X11.  [viewMessages] is idempotent: a second call for the same
    counterparty returns the same result as the first and leaves the
    store the first call produced unchanged. *)
Theorem viewMessages_idempotent (st : Store) (caller friendPrincipal : string) :
  viewMessages (viewMessages st caller friendPrincipal).2 caller friendPrincipal
  = viewMessages st caller friendPrincipal.
Proof.
  unfold viewMessages at 2 3.
  destruct (userChatIDs st !! caller) as [userSessions|] eqn:Hdir; cbn [snd].
  - case_decide as Hz; cbn [snd].
    + unfold viewMessages. by rewrite Hdir, decide_True.
    + destruct (chatData st !! scanSessionID userSessions friendPrincipal) as [cur|] eqn:Hlog;
        cbn [snd].
      * unfold viewMessages. cbn [userChatIDs chatData unreadMessages].
        by rewrite Hdir, decide_False, Hlog, purgeNotifications_idemp.
      * unfold viewMessages. by rewrite Hdir, decide_False, Hlog.
  - unfold viewMessages. by rewrite Hdir.
Qed.

(** X12.  [getTotalSessionMessages] agrees with [viewMessages]: it
    returns a count exactly when [viewMessages] returns a list, and
    then the count is the length of that list; and the two fail with
    the same kind of error ([NoSession] or [NotFound]) on the same
    stores. *)
Theorem getTotalSessionMessages_agrees (st : Store) (caller friendPrincipal : string) :
  (∀ n, getTotalSessionMessages st caller friendPrincipal = Ok n ↔
        ∃ msgs, (viewMessages st caller friendPrincipal).1 = Ok msgs ∧
                n = Z.of_nat (length msgs))
  ∧ ((∃ detail, getTotalSessionMessages st caller friendPrincipal = Err (NoSession detail)) ↔
     (∃ detail, (viewMessages st caller friendPrincipal).1 = Err (NoSession detail)))
  ∧ ((∃ detail, getTotalSessionMessages st caller friendPrincipal = Err (NotFound detail)) ↔
     (∃ detail, (viewMessages st caller friendPrincipal).1 = Err (NotFound detail))).
Proof.
  unfold getTotalSessionMessages, viewMessages.
  destruct (userChatIDs st !! caller) as [userSessions|]; [case_decide;
    [|destruct (chatData st !! _) as [cur|]]|]; cbn [fst];
    (split; [intros n|split]); split;
    try (intros (? & [= <-] & ->)); try (intros [? [= <-]]); try (intros [? [=]]);
    try (intros [=]); try (intros (? & [=] & _)); subst; eauto.
Qed.

(** ** Stores reached from the empty store *)

Lemma demoCalls_run : runUpdates emptyStore demoCalls = Some demoStore.
Proof. vm_compute. reflexivity. Qed.

Lemma runUpdates_invariant (P : Store → Prop) :
  (∀ st caller friendPrincipal draws r st',
      P st → createSession st caller friendPrincipal draws = Some (r, st') → P st') →
  (∀ st caller friendPrincipal, P st → P (removeSession st caller friendPrincipal).2) →
  (∀ st caller, P st → P (removeAllSessions st caller).2) →
  (∀ st caller receiver message now,
      P st → P (sendMessage st caller receiver message now).2) →
  (∀ st caller friendPrincipal, P st → P (viewMessages st caller friendPrincipal).2) →
  ∀ calls st st', P st → runUpdates st calls = Some st' → P st'.
Proof.
  intros Hcreate Hremove HremoveAll Hsend Hview calls.
  induction calls as [|call rest IH]; intros st st' HP Hrun.
  - cbn in Hrun. by simplify_eq.
  - cbn [runUpdates] in Hrun. destruct (runUpdate st call) as [st1|] eqn:Hcall; [|done].
    apply (IH st1); [|done].
    destruct call as [[caller f draws|caller f|caller]|caller receiver message now|caller f];
      cbn in Hcall.
    + destruct (createSession st caller f draws) as [[r st2]|] eqn:Hc; [|done].
      cbn in Hcall. simplify_eq. by eapply Hcreate.
    + simplify_eq. by apply Hremove.
    + simplify_eq. by apply HremoveAll.
    + simplify_eq. by apply Hsend.
    + simplify_eq. by apply Hview.
Qed.

Lemma sendMessage_directory (st : Store) (caller receiver message : string) (now : Z) :
  userChatIDs (sendMessage st caller receiver message now).2 = userChatIDs st.
Proof.
  destruct (sendMessage_result st caller receiver message now) as [[st' H]|[e ->]]; [|done].
  rewrite H. by apply sendMessage_ok_inv in H as (l & _ & _ & _ & ->).
Qed.

Lemma viewMessages_directory_logs (st : Store) (caller friendPrincipal : string) :
  userChatIDs (viewMessages st caller friendPrincipal).2 = userChatIDs st ∧
  chatData (viewMessages st caller friendPrincipal).2 = chatData st.
Proof.
  unfold viewMessages. destruct (userChatIDs st !! caller) as [l|]; [|done].
  case_decide; [done|]. by destruct (chatData st !! _).
Qed.

Lemma removeSession_shrinks (st : Store) (caller friendPrincipal : string) :
  (∀ c l', userChatIDs (removeSession st caller friendPrincipal).2 !! c = Some l' →
           ∃ l, userChatIDs st !! c = Some l ∧ l' ⊆ l) ∧
  (∀ k msgs, chatData (removeSession st caller friendPrincipal).2 !! k = Some msgs →
             chatData st !! k = Some msgs).
Proof.
  destruct (removeSession_result st caller friendPrincipal) as [[st' H]|[e ->]].
  - rewrite H. cbn [snd].
    apply removeSession_ok_inv in H as (l & removed & Hdir & _ & _ & ->).
    cbn [userChatIDs chatData]. split.
    + intros c l'. rewrite lookup_insert. case_decide; [|intros ?; by exists l'].
      intros [= <-]. subst c. exists l. split; [done|].
      intros s Hs. by apply list_elem_of_filter in Hs as [_ ?].
    + intros k msgs Hk. by apply lookup_delete_Some in Hk as [_ ?].
  - cbn [snd]. split; [intros c l' ?; by exists l'|done].
Qed.

Lemma removeAllSessions_shrinks (st : Store) (caller : string) :
  (∀ c l', userChatIDs (removeAllSessions st caller).2 !! c = Some l' →
           ∃ l, userChatIDs st !! c = Some l ∧ l' ⊆ l) ∧
  (∀ k msgs, chatData (removeAllSessions st caller).2 !! k = Some msgs →
             chatData st !! k = Some msgs).
Proof.
  destruct (userChatIDs st !! caller) as [userSessions|] eqn:Hdir.
  - destruct (removeAllSessions_ok _ _ _ Hdir) as [um' ->].
    cbn [snd userChatIDs chatData]. split.
    + intros c l'. rewrite lookup_insert. case_decide; [|intros ?; by exists l'].
      intros [= <-]. subst c. exists userSessions. split; [done|]. by intros s Hs%elem_of_nil.
    + intros k msgs. destruct (decide (k ∈ Session.id <$> userSessions)) as [Hin|Hout].
      * by rewrite fold_delete_lookup_in.
      * by rewrite fold_delete_lookup.
  - rewrite removeAllSessions_no_directory by done. cbn [snd].
    split; [intros c l' ?; by exists l'|done].
Qed.

Lemma sessionsBounded_updates (calls : list UpdateCall) (st st' : Store) :
  sessionsBounded st → runUpdates st calls = Some st' → sessionsBounded st'.
Proof.
  apply runUpdates_invariant; clear.
  - intros st caller f draws r st' Hinv Hcall c l.
    destruct (createSession_result st caller f draws) as [H|[[st1 H]|[e H]]];
      rewrite H in Hcall; simplify_eq; [|apply Hinv].
    apply createSession_ok_inv in H as (newID & _ & _ & Hlen & _ & ->).
    cbn [userChatIDs]. rewrite lookup_insert. case_decide; [|apply Hinv].
    intros [= <-]. rewrite length_app. cbn [length]. lia.
  - intros st caller f Hinv c l' Hl'.
    destruct (proj1 (removeSession_shrinks st caller f) _ _ Hl') as (l & Hl & Hsub).
    destruct (userChatIDs st !! caller) as [userSessions|] eqn:Hdir.
    + rewrite (removeSession_directory _ _ _ _ Hdir), lookup_insert in Hl'.
      case_decide; [|by eapply Hinv]. simplify_eq.
      etrans; [apply length_filter|]. by eapply Hinv.
    + rewrite removeSession_no_directory in Hl' by done. by eapply Hinv.
  - intros st caller Hinv c l' Hl'.
    destruct (userChatIDs st !! caller) as [userSessions|] eqn:Hdir.
    + destruct (removeAllSessions_ok _ _ _ Hdir) as [um' Hcall].
      rewrite Hcall in Hl'. cbn [snd userChatIDs] in Hl'. rewrite lookup_insert in Hl'.
      case_decide; [simplify_eq; cbn; lia|by eapply Hinv].
    + rewrite removeAllSessions_no_directory in Hl' by done. by eapply Hinv.
  - intros st caller receiver message now Hinv c l. rewrite sendMessage_directory. apply Hinv.
  - intros st caller f Hinv c l.
    rewrite (proj1 (viewMessages_directory_logs st caller f)). apply Hinv.
Qed.

(** X15.  In every store reached from the empty store by calls of the
    update methods, no caller lists more than [MAXIMUM_SESSIONS + 1]
    sessions: [getTotalSessions] never exceeds [getMaximumSessions + 1]. *)
Theorem reachable_sessions_bounded (calls : list UpdateCall) (st : Store) (caller : string) :
  runUpdates emptyStore calls = Some st →
  0 ≤ getTotalSessions st caller ≤ getMaximumSessions + 1.
Proof.
  intros Hrun.
  assert (Hinv : sessionsBounded st).
  { eapply sessionsBounded_updates; [|done]. intros c l Hl. cbn in Hl.
    by rewrite lookup_empty in Hl. }
  unfold getTotalSessions, getMaximumSessions.
  destruct (userChatIDs st !! caller) as [l|] eqn:Hdir.
  - specialize (Hinv _ _ Hdir). lia.
  - unfold MAXIMUM_SESSIONS. lia.
Qed.

Lemma reachable_sessions_bounded_witness :
  runUpdates emptyStore demoCalls = Some demoStore ∧
  getTotalSessions demoStore "alice" = 1 ∧
  0 ≤ getTotalSessions demoStore "alice" ≤ getMaximumSessions + 1.
Proof.
  split; [exact demoCalls_run|]. split; [reflexivity|].
  exact (reachable_sessions_bounded demoCalls demoStore "alice" demoCalls_run).
Defined.

Lemma logsBounded_updates (calls : list UpdateCall) (st st' : Store) :
  logsBounded st → runUpdates st calls = Some st' → logsBounded st'.
Proof.
  apply runUpdates_invariant; clear.
  - intros st caller f draws r st' Hinv Hcall k msgs.
    destruct (createSession_result st caller f draws) as [H|[[st1 H]|[e H]]];
      rewrite H in Hcall; simplify_eq; [|apply Hinv].
    apply createSession_ok_inv in H as (newID & _ & _ & _ & _ & ->).
    cbn [chatData]. rewrite lookup_insert. case_decide; [|apply Hinv].
    intros [= <-]. cbn. lia.
  - intros st caller f Hinv k msgs Hk. eapply Hinv.
    by apply (proj2 (removeSession_shrinks st caller f)).
  - intros st caller Hinv k msgs Hk. eapply Hinv.
    by apply (proj2 (removeAllSessions_shrinks st caller)).
  - intros st caller receiver message now Hinv k msgs.
    destruct (sendMessage_result st caller receiver message now) as [[st' H]|[e ->]];
      [|apply Hinv].
    rewrite H. cbn [snd]. apply sendMessage_ok_inv in H as (l & _ & _ & Hlen & ->).
    cbn [chatData]. rewrite lookup_insert. case_decide; [|apply Hinv].
    intros [= <-]. rewrite length_app. cbn [length]. lia.
  - intros st caller f Hinv k msgs.
    rewrite (proj2 (viewMessages_directory_logs st caller f)). apply Hinv.
Qed.

(** X16.  In every store reached from the empty store by calls of the
    update methods, no message log holds more than
    [MAX_MSG_PER_SESSION + 1] messages, so the count
    [getTotalSessionMessages] returns never exceeds
    [getMaximumMessages + 1]. *)
Theorem reachable_logs_bounded (calls : list UpdateCall) (st : Store) :
  runUpdates emptyStore calls = Some st →
  (∀ k msgs, chatData st !! k = Some msgs → (length msgs ≤ S MAX_MSG_PER_SESSION)%nat)
  ∧ (∀ caller friendPrincipal n,
        getTotalSessionMessages st caller friendPrincipal = Ok n →
        0 ≤ n ≤ getMaximumMessages + 1).
Proof.
  intros Hrun.
  assert (Hinv : logsBounded st).
  { eapply logsBounded_updates; [|done]. intros k msgs Hk. cbn in Hk.
    by rewrite lookup_empty in Hk. }
  split; [exact Hinv|]. intros caller f n. unfold getTotalSessionMessages, getMaximumMessages.
  destruct (userChatIDs st !! caller) as [l|]; [|done]. case_decide; [done|].
  destruct (chatData st !! _) as [cur|] eqn:Hlog; [|done].
  intros [= <-]. specialize (Hinv _ _ Hlog). lia.
Qed.

Lemma reachable_logs_bounded_witness :
  runUpdates emptyStore demoCalls = Some demoStore ∧
  getTotalSessionMessages demoStore "alice" "bob" = Ok 1 ∧
  0 ≤ 1 ≤ getMaximumMessages + 1.
Proof.
  split; [exact demoCalls_run|].
  assert (Hcount : getTotalSessionMessages demoStore "alice" "bob" = Ok 1) by reflexivity.
  split; [exact Hcount|].
  exact (proj2 (reachable_logs_bounded demoCalls demoStore demoCalls_run)
           "alice"%string "bob"%string 1 Hcount).
Defined.

Lemma uniqueCounterparties_updates (calls : list UpdateCall) (st st' : Store) :
  uniqueCounterparties st → runUpdates st calls = Some st' → uniqueCounterparties st'.
Proof.
  apply runUpdates_invariant; clear.
  - intros st caller f draws r st' Hinv Hcall. by eapply createSession_unique.
  - intros st caller f Hinv. by apply removeSession_unique.
  - intros st caller Hinv. by apply removeAllSessions_unique.
  - intros st caller receiver message now Hinv c l. rewrite sendMessage_directory. apply Hinv.
  - intros st caller f Hinv c l.
    rewrite (proj1 (viewMessages_directory_logs st caller f)). apply Hinv.
Qed.

Lemma firstSessionID_Some (sessions : list Session.t) (target : string) (sid : Z) :
  firstSessionID sessions target = Some sid → Session.mk sid target ∈ sessions.
Proof.
  induction sessions as [|[i u] rest IH]; [done|]. cbn.
  case_decide as Hu.
  - intros [= <-]. subst u. apply list_elem_of_here.
  - intros H. by apply list_elem_of_further, IH.
Qed.

(** X13.  In every store reached from the empty store by calls of the
    update methods, the id [getSessionID] reports for a counterparty is
    the id of the one session the caller lists with that counterparty,
    and it is the id the scan of [sendMessage], [viewMessages] and
    [getTotalSessionMessages] resolves. *)
Theorem getSessionID_resolves (calls : list UpdateCall) (st : Store)
    (caller friendPrincipal : string) (sid : Z) :
  runUpdates emptyStore calls = Some st →
  getSessionID st caller friendPrincipal = Ok sid →
  holdsSession st caller friendPrincipal sid ∧
  ∃ userSessions,
    userChatIDs st !! caller = Some userSessions ∧
    scanSessionID userSessions friendPrincipal = sid.
Proof.
  intros Hrun Hget.
  assert (Hinv : uniqueCounterparties st).
  { eapply uniqueCounterparties_updates; [|done]. intros c l Hl. cbn in Hl.
    by rewrite lookup_empty in Hl. }
  unfold getSessionID in Hget.
  destruct (userChatIDs st !! caller) as [l|] eqn:Hdir; [|done].
  destruct (firstSessionID l friendPrincipal) as [sid'|] eqn:Hfirst; [|done].
  injection Hget as ->. apply firstSessionID_Some in Hfirst.
  assert (Hs : holdsSession st caller friendPrincipal sid)
    by (eapply holdsSession_of_unique; [done|by eapply Hinv|done]).
  split; [done|]. destruct (holdsSession_scan _ _ _ _ Hs) as (l' & Hl' & Hscan).
  exists l'. split; [congruence|done].
Qed.

Lemma getSessionID_resolves_witness :
  runUpdates emptyStore demoCalls = Some demoStore ∧
  getSessionID demoStore "bob" "alice" = Ok 2251799813685247 ∧
  holdsSession demoStore "bob" "alice" 2251799813685247.
Proof.
  split; [exact demoCalls_run|].
  assert (Hget : getSessionID demoStore "bob" "alice" = Ok 2251799813685247) by reflexivity.
  split; [exact Hget|].
  exact (proj1 (getSessionID_resolves demoCalls demoStore "bob" "alice" _ demoCalls_run Hget)).
Defined.

Lemma reachable_ids_not_shared_witness :
  runUpdates emptyStore demoCalls = Some demoStore ∧
  userChatIDs demoStore !! "alice"%string = Some [Session.mk 4503599627370495 "bob"] ∧
  userChatIDs demoStore !! "bob"%string = Some [Session.mk 2251799813685247 "alice"] ∧
  is_Some (chatData demoStore !! 4503599627370495) ∧
  4503599627370495 ≠ 2251799813685247.
Proof.
  split; [exact demoCalls_run|].
  assert (Ha : userChatIDs demoStore !! "alice"%string
               = Some [Session.mk 4503599627370495 "bob"]) by reflexivity.
  assert (Hb : userChatIDs demoStore !! "bob"%string
               = Some [Session.mk 2251799813685247 "alice"]) by reflexivity.
  split; [exact Ha|]. split; [exact Hb|].
  destruct (reachable_ids_not_shared demoCalls demoStore "alice" "bob"
              [Session.mk 4503599627370495 "bob"] [Session.mk 2251799813685247 "alice"]
              (Session.mk 4503599627370495 "bob") (Session.mk 2251799813685247 "alice")
              demoCalls_run Ha (list_elem_of_here _ _)) as [Hlog Hne].
  split; [exact Hlog|]. apply (Hne Hb); [apply list_elem_of_here|discriminate].
Defined.

Lemma viewMessages_ok_inv (st st' : Store) (caller friendPrincipal : string)
    (msgs : list Message.t) :
  viewMessages st caller friendPrincipal = (Ok msgs, st') →
  ∃ userSessions,
    userChatIDs st !! caller = Some userSessions ∧
    scanSessionID userSessions friendPrincipal ≠ 0 ∧
    chatData st !! scanSessionID userSessions friendPrincipal = Some msgs ∧
    st' = mkStore (userChatIDs st) (chatData st)
            (purgeNotifications caller (scanSessionID userSessions friendPrincipal)
               (unreadMessages st)).
Proof.
  unfold viewMessages. destruct (userChatIDs st !! caller) as [l|]; [|done].
  case_decide; [done|]. destruct (chatData st !! _) as [cur|] eqn:Hlog; [|done].
  intros [= <- <-]. by exists l.
Qed.

Lemma ownLogs_shrink (st st' : Store) :
  ownLogs st →
  (∀ c l', userChatIDs st' !! c = Some l' → ∃ l, userChatIDs st !! c = Some l ∧ l' ⊆ l) →
  (∀ k msgs, chatData st' !! k = Some msgs → chatData st !! k = Some msgs) →
  ownLogs st'.
Proof.
  intros Hown Hsub Hlogs c l' s msgs Hl' Hs Hlog.
  destruct (Hsub _ _ Hl') as (l & Hl & Hincl).
  eapply Hown; [exact Hl|by apply Hincl|by apply Hlogs].
Qed.

Lemma ownLogs_updates (calls : list UpdateCall) (st st' : Store) :
  idsOwned st ∧ ownLogs st → runUpdates st calls = Some st' → idsOwned st' ∧ ownLogs st'.
Proof.
  revert calls st st'. apply (runUpdates_invariant (λ st, idsOwned st ∧ ownLogs st)).
  - intros st caller f draws r st' [Hids Hown] Hcall.
    split; [by eapply createSession_idsOwned|].
    destruct (createSession_result st caller f draws) as [H|[[st1 H]|[e H]]];
      rewrite H in Hcall; simplify_eq; [|done].
    apply createSession_ok_inv in H as (newID & _ & _ & _ & _ & ->).
    intros c l s msgs. cbn [userChatIDs chatData]. intros Hl Hs.
    rewrite lookup_insert. case_decide as Hid; [intros [= <-]; constructor|].
    intros Hlog. rewrite lookup_insert in Hl. case_decide as Hc; [|by eapply Hown].
    injection Hl as <-. subst c.
    apply elem_of_app in Hs as [Hs|Hs%list_elem_of_singleton]; [|by subst s].
    destruct (userChatIDs st !! caller) as [old|] eqn:Hdir; cbn [default] in Hs.
    + by eapply Hown.
    + by apply elem_of_nil in Hs.
  - intros st caller f [Hids Hown]. split; [by apply removeSession_idsOwned|].
    apply (ownLogs_shrink st); [done|apply removeSession_shrinks..].
  - intros st caller [Hids Hown]. split; [by apply removeAllSessions_idsOwned|].
    apply (ownLogs_shrink st); [done|apply removeAllSessions_shrinks..].
  - intros st caller receiver message now [Hids Hown].
    split; [by apply sendMessage_idsOwned|].
    destruct (sendMessage_result st caller receiver message now) as [[st' H]|[e ->]]; [|done].
    rewrite H. cbn [snd].
    apply sendMessage_ok_inv in H as (userSessions & Hdir & Hnz & _ & ->).
    destruct (scan_nonzero_session _ _ Hnz) as (s0 & Hin0 & Huser0 & Hid0).
    intros c l s msgs. cbn [userChatIDs chatData]. intros Hl Hs.
    rewrite lookup_insert. case_decide as Hid; [|by eapply Hown].
    intros [= <-].
    destruct (proj2 Hids _ _ _ _ _ _ Hl Hdir Hs Hin0) as [-> ->]; [congruence|].
    apply Forall_app. split; [|by repeat constructor].
    destruct (chatData st !! scanSessionID userSessions receiver) as [cur|] eqn:Hlog;
      cbn [default]; [|constructor].
    eapply Hown; [exact Hdir|exact Hin0|]. by rewrite Hid0.
  - intros st caller f [Hids Hown]. split; [by apply viewMessages_idsOwned|].
    destruct (viewMessages_directory_logs st caller f) as [Huc Hcd].
    intros c l s msgs. rewrite Huc, Hcd. apply Hown.
Qed.

(** X18.  In every store reached from the empty store by calls of the
    update methods, the list [viewMessages] returns to a caller for a
    counterparty holds only messages that this caller sent to that
    counterparty: the log of a session is written by its owner alone. *)
Theorem viewMessages_own_messages (calls : list UpdateCall) (st st' : Store)
    (caller friendPrincipal : string) (msgs : list Message.t) :
  runUpdates emptyStore calls = Some st →
  viewMessages st caller friendPrincipal = (Ok msgs, st') →
  Forall (λ m, Message.sender m = caller ∧ Message.receiver m = friendPrincipal) msgs.
Proof.
  intros Hrun (l & Hdir & Hnz & Hlog & _)%viewMessages_ok_inv.
  assert (Hinv : idsOwned emptyStore ∧ ownLogs emptyStore).
  { split; [split|]; intros c0 l0 *; cbn; by rewrite lookup_empty. }
  destruct (ownLogs_updates _ _ _ Hinv Hrun) as [_ Hown].
  destruct (scan_nonzero_session _ _ Hnz) as (s & Hin & Huser & Hid).
  rewrite <- Huser. eapply Hown; [exact Hdir|exact Hin|]. by rewrite Hid.
Qed.

Lemma viewMessages_own_messages_witness :
  runUpdates emptyStore demoCalls = Some demoStore ∧
  (viewMessages demoStore "alice" "bob").1 = Ok [Message.mk "alice" "bob" "hi" 1] ∧
  (viewMessages demoStore "bob" "alice").1 = Ok [] ∧
  Forall (λ m, Message.sender m = "alice"%string ∧ Message.receiver m = "bob"%string)
    [Message.mk "alice" "bob" "hi" 1].
Proof.
  split; [exact demoCalls_run|]. split; [reflexivity|]. split; [reflexivity|].
  destruct (viewMessages demoStore "alice" "bob") as [r st'] eqn:Hview.
  assert (Hr : r = Ok [Message.mk "alice" "bob" "hi" 1])
    by (vm_compute in Hview; by injection Hview as <- _).
  subst r.
  exact (viewMessages_own_messages demoCalls demoStore st' "alice" "bob" _
           demoCalls_run Hview).
Defined.

(** X19.  In every store reached from the empty store by calls of the
    update methods, [viewMessages] called by a recipient never removes
    from the recipient's queue a notification whose id is the id of a
    session listed by another caller: such a notification stays unread
    whichever counterparty the recipient views. *)
Theorem viewMessages_keeps_foreign_notification (calls : list UpdateCall) (st : Store)
    (sender recipient friendPrincipal : string) (userSessions : list Session.t)
    (session : Session.t) (notification : MessageNotification.t) :
  runUpdates emptyStore calls = Some st →
  userChatIDs st !! sender = Some userSessions → session ∈ userSessions →
  sender ≠ recipient →
  notification ∈ viewNotifications st recipient →
  MessageNotification.id notification = Session.id session →
  notification ∈ viewNotifications (viewMessages st recipient friendPrincipal).2 recipient.
Proof.
  intros Hrun Hdir Hin Hne Hn Hid.
  assert (Hinv : idsOwned st).
  { eapply runUpdates_idsOwned; [|done]. split; intros *; cbn; by rewrite lookup_empty. }
  destruct (viewMessages_result st recipient friendPrincipal) as [(msgs & st' & H)|[e ->]];
    [|done].
  rewrite H. cbn [snd]. apply viewMessages_ok_inv in H as (l & Hl & Hnz & _ & ->).
  destruct (scan_nonzero_session _ _ Hnz) as (s' & Hin' & _ & Hid').
  unfold viewNotifications in *. cbn [unreadMessages].
  rewrite purgeNotifications_lookup, decide_True by done.
  destruct (unreadMessages st !! recipient) as [ns|]; [|by apply elem_of_nil in Hn].
  cbn. apply list_elem_of_filter. split; [|done].
  rewrite Hid, <- Hid'. intros Heq.
  by destruct (proj2 Hinv _ _ _ _ _ _ Hdir Hl Hin Hin' Heq).
Qed.

Lemma viewMessages_keeps_foreign_notification_witness :
  let notification := MessageNotification.mk "alice" 4503599627370495 1 in
  runUpdates emptyStore demoCalls = Some demoStore ∧
  notification ∈ viewNotifications demoStore "bob" ∧
  (viewMessages demoStore "bob" "alice").1 = Ok [] ∧
  notification ∈ viewNotifications (viewMessages demoStore "bob" "alice").2 "bob".
Proof.
  intros notification.
  assert (Hn : notification ∈ viewNotifications demoStore "bob") by apply list_elem_of_here.
  split; [exact demoCalls_run|]. split; [exact Hn|]. split; [reflexivity|].
  apply (viewMessages_keeps_foreign_notification demoCalls demoStore "alice" "bob" "alice"
           [Session.mk 4503599627370495 "bob"] (Session.mk 4503599627370495 "bob")
           notification demoCalls_run).
  - reflexivity.
  - apply list_elem_of_here.
  - discriminate.
  - exact Hn.
  - reflexivity.
Defined.

(** ** Outcomes and missing entries *)

(** X20.  When the id loop of [createSession] returns, the outcome is
    decided by the caller's current list alone ([[]] for a caller
    without an entry): [MaxSessionsReached] exactly when it holds more
    than [MAXIMUM_SESSIONS] sessions, [DuplicateAttempt] exactly when it
    holds at most that many and one of them is with the counterparty,
    and [Ok] otherwise; so the size test wins over the duplicate test. *)
Theorem createSession_outcome (st st' : Store) (caller friendPrincipal : string)
    (draws : list Q) (r : Result bool Error) :
  createSession st caller friendPrincipal draws = Some (r, st') →
  let userSessions := default [] (userChatIDs st !! caller) in
  let listed := Exists (λ session, Session.user session = friendPrincipal) userSessions in
  (r = Err (MaxSessionsReached max_sessions_text)
   ↔ (MAXIMUM_SESSIONS < length userSessions)%nat)
  ∧ (r = Err (DuplicateAttempt duplicate_text)
     ↔ (length userSessions ≤ MAXIMUM_SESSIONS)%nat ∧ listed)
  ∧ (r = Ok true ↔ (length userSessions ≤ MAXIMUM_SESSIONS)%nat ∧ ¬ listed).
Proof.
  intros (newID & _ & Hcase)%createSession_inv. cbv zeta.
  assert (Hnil : ¬ Exists (λ session, Session.user session = friendPrincipal) [])
    by (by intros ?%Exists_nil).
  destruct (userChatIDs st !! caller) as [old|]; cbn.
  - destruct Hcase as [(-> & _ & Hlen)|[(-> & _ & Hlen & Hex)|(-> & Hlen & Hno & _)]];
      (split; [|split]); split; intros H;
      first [done | lia | discriminate
            | destruct H as [? ?]; first [lia | done | contradiction]].
  - destruct Hcase as [-> _]. unfold MAXIMUM_SESSIONS.
    (split; [|split]); split; intros H;
      first [done | cbn in H; lia | split; [cbn; lia|done]
            | destruct H as [_ H]; contradiction].
Qed.

Lemma createSession_outcome_witness :
  let st := mkStore {[ "alice"%string := [Session.mk 7 "bob"] ]} {[ 7 := [] ]} ∅ in
  createSession st "alice" "bob" [Qmake 1 2] = Some (Err (DuplicateAttempt duplicate_text), st)
  ∧ (length [Session.mk 7 "bob"] ≤ MAXIMUM_SESSIONS)%nat
  ∧ Exists (λ session, Session.user session = "bob"%string) [Session.mk 7 "bob"].
Proof.
  intros st.
  assert (Hcall : createSession st "alice" "bob" [Qmake 1 2]
                  = Some (Err (DuplicateAttempt duplicate_text), st))
    by (vm_compute; reflexivity).
  split; [exact Hcall|].
  destruct (createSession_outcome st st "alice" "bob" _ _ Hcall) as (_ & Hdup & _).
  exact (proj1 Hdup eq_refl).
Defined.

(** X21.  For a caller without a directory entry, [removeSession],
    [removeAllSessions], [sendMessage], [viewMessages], [getSessionID],
    [getAllSessions] and [getTotalSessionMessages] all answer
    [NoSession] and the store stays as it is, while [getTotalSessions]
    answers [0] instead of an error. *)
Theorem no_directory_NoSession (st : Store) (caller : string) :
  userChatIDs st !! caller = None →
  (∀ friendPrincipal,
      removeSession st caller friendPrincipal = (Err (NoSession no_session_text), st)) ∧
  removeAllSessions st caller = (Err (NoSession no_session_text), st) ∧
  (∀ receiver message now,
      sendMessage st caller receiver message now = (Err (NoSession no_session_text), st)) ∧
  (∀ friendPrincipal,
      viewMessages st caller friendPrincipal = (Err (NoSession no_session_text), st)) ∧
  (∀ friendPrincipal,
      getSessionID st caller friendPrincipal = Err (NoSession no_session_text)) ∧
  getAllSessions st caller = Err (NoSession no_session_text) ∧
  (∀ friendPrincipal,
      getTotalSessionMessages st caller friendPrincipal = Err (NoSession no_session_text)) ∧
  getTotalSessions st caller = 0.
Proof.
  intros Hdir.
  unfold removeSession, removeAllSessions, sendMessage, viewMessages, getSessionID,
    getAllSessions, getTotalSessionMessages, getTotalSessions.
  by rewrite Hdir.
Qed.

Lemma no_directory_NoSession_witness :
  userChatIDs demoStore !! "carol"%string = None ∧
  sendMessage demoStore "carol" "alice" "hi" 5 = (Err (NoSession no_session_text), demoStore) ∧
  getTotalSessions demoStore "carol" = 0.
Proof.
  assert (Hdir : userChatIDs demoStore !! "carol"%string = None) by reflexivity.
  destruct (no_directory_NoSession demoStore "carol" Hdir)
    as (_ & _ & Hsend & _ & _ & _ & _ & Htotal).
  split; [exact Hdir|]. split; [apply Hsend|exact Htotal].
Defined.

(** X22.  For a caller whose list holds no session with the given
    counterparty, [sendMessage], [viewMessages], [getSessionID] and
    [getTotalSessionMessages] answer [NotFound]; nothing is appended,
    no notification is enqueued or cleared, the store stays as it is. *)
Theorem no_session_NotFound (st : Store) (caller friendPrincipal : string)
    (userSessions : list Session.t) :
  userChatIDs st !! caller = Some userSessions →
  Forall (λ session, Session.user session ≠ friendPrincipal) userSessions →
  (∀ message now,
      sendMessage st caller friendPrincipal message now
      = (Err (NotFound not_detected_text), st)) ∧
  viewMessages st caller friendPrincipal = (Err (NotFound not_found_text), st) ∧
  getSessionID st caller friendPrincipal = Err (NotFound not_found_query_text) ∧
  getTotalSessionMessages st caller friendPrincipal = Err (NotFound not_detected_text).
Proof.
  intros Hdir Hall.
  assert (Hscan : scanSessionID userSessions friendPrincipal = 0).
  { rewrite scanSessionID_fold. apply scan_no_match. intros Hex.
    apply Exists_exists in Hex as (s & Hs & Heq). rewrite Forall_forall in Hall.
    by apply (Hall s). }
  unfold sendMessage, viewMessages, getSessionID, getTotalSessionMessages.
  rewrite Hdir, Hscan, firstSessionID_none by done. by rewrite !decide_True.
Qed.

Lemma no_session_NotFound_witness :
  userChatIDs demoStore !! "alice"%string = Some [Session.mk 4503599627370495 "bob"] ∧
  Forall (λ session, Session.user session ≠ "carol"%string)
    [Session.mk 4503599627370495 "bob"] ∧
  viewMessages demoStore "alice" "carol" = (Err (NotFound not_found_text), demoStore) ∧
  getSessionID demoStore "alice" "carol" = Err (NotFound not_found_query_text).
Proof.
  assert (Hdir : userChatIDs demoStore !! "alice"%string
                 = Some [Session.mk 4503599627370495 "bob"]) by reflexivity.
  assert (Hall : Forall (λ session, Session.user session ≠ "carol"%string)
                   [Session.mk 4503599627370495 "bob"])
    by (repeat constructor; discriminate).
  destruct (no_session_NotFound demoStore "alice" "carol" _ Hdir Hall)
    as (_ & Hview & Hget & _).
  split; [exact Hdir|]. split; [exact Hall|]. split; [exact Hview|exact Hget].
Defined.

(** ** C1: removing a session, on the stores the methods produce *)

Lemma reachable_idsOwned (calls : list UpdateCall) (st : Store) :
  runUpdates emptyStore calls = Some st → idsOwned st.
Proof.
  intros Hrun. eapply runUpdates_idsOwned; [|done].
  split; intros *; cbn; by rewrite lookup_empty.
Qed.

(** On a store the methods produce, a session the caller lists is the
    one session it holds with that counterparty. *)
Lemma reachable_holdsSession (calls : list UpdateCall) (st : Store)
    (caller counterparty : string) (sid : Z) (userSessions : list Session.t) :
  runUpdates emptyStore calls = Some st →
  userChatIDs st !! caller = Some userSessions →
  Session.mk sid counterparty ∈ userSessions →
  holdsSession st caller counterparty sid.
Proof.
  intros Hrun Hdir Hin. eapply holdsSession_of_unique; [done| |done].
  assert (Hinv : uniqueCounterparties st); [|by eapply Hinv].
  eapply uniqueCounterparties_updates; [|done]. intros c l Hl. cbn in Hl.
  by rewrite lookup_empty in Hl.
Qed.

(** The methods never produce [reciprocalStore]: two callers do not end
    up with the same session id. *)
Lemma reciprocalStore_unreachable (calls : list UpdateCall) :
  runUpdates emptyStore calls ≠ Some reciprocalStore.
Proof.
  intros Hrun. destruct (reachable_idsOwned _ _ Hrun) as [_ Hown].
  destruct (Hown "alice"%string "bob"%string [Session.mk 5 "bob"] [Session.mk 5 "alice"]
              (Session.mk 5 "bob") (Session.mk 5 "alice")) as [Heq _];
    [reflexivity|reflexivity|apply list_elem_of_here|apply list_elem_of_here|reflexivity|].
  discriminate.
Qed.




(** ** C10: the log of a listed session is never missing *)



